(** * Stackwise: the Node SDK capture middleware, the dashboard client,
      and the asynchronous analysis pipeline

    Shallow embedding of
    - [sdks/node/src/index.ts] (sanitizePath, errorIngestionMiddleware,
      sendErrorEvent): on ordinary error objects in [Sdk], on every value
      that can reach the handler in [Capture],
    - [frontend/lib/api.ts] (token storage, apiRequest, syncUser), the
      error-detail page, the route protection and [UserSync],
    - the analysis pipeline (trigger policy, worker workflow, retry state
      machine), whose Python sources are not part of the tree at hand and
      which is therefore modelled from the written specification. *)

From Stdlib Require Import ZArith Ascii String List Bool Lia.
From stdpp Require Import gmap strings pretty.

Import ListNotations.
Local Open Scope Z_scope.

(** ** JavaScript values *)

Module JS.

(** The fragment of JavaScript values that flows through the middleware.
    Numbers are integers: HTTP status codes never are fractional or NaN. *)
Inductive JSVal : Type :=
  | JUndefined
  | JNull
  | JBool (b : bool)
  | JNum (n : Z)
  | JStr (s : string).

#[global] Instance JSVal_eq_dec : EqDecision JSVal.
Proof. solve_decision. Defined.

(** ToBoolean. *)
Definition truthy (v : JSVal) : bool :=
  match v with
  | JUndefined | JNull => false
  | JBool b => b
  | JNum n => negb (n =? 0)
  | JStr s => negb (String.eqb s "")
  end.

(** [a || b] *)
Definition js_or (a b : JSVal) : JSVal := if truthy a then a else b.

(** [a !== b] on the fragment above (no NaN, so it is plain disequality). *)
Definition strict_neq (a b : JSVal) : bool := negb (bool_decide (a = b)).

(** Property keys: strings, and symbols of the global registry
    ([Symbol.for(name)] yields the same symbol for the same name). *)
Inductive PropKey : Type :=
  | KStr (s : string)
  | KSym (registry_name : string).

#[global] Instance PropKey_eq_dec : EqDecision PropKey.
Proof. solve_decision. Defined.

#[global] Instance PropKey_countable : Countable PropKey.
Proof.
  refine (inj_countable'
    (fun k => match k with KStr s => inl s | KSym s => inr s end)
    (fun x => match x with inl s => KStr s | inr s => KSym s end) _).
  intros []; reflexivity.
Defined.

(** An object is its property table; a heap maps references to objects, so
    that two holders of the same reference see each other's writes. *)
Definition ref := positive.
Abbreviation JSObject := (gmap PropKey JSVal).
Abbreviation Heap := (gmap ref (gmap PropKey JSVal)).

(** [o[k]]: a missing property reads as [undefined]. *)
Definition getProp (h : Heap) (r : ref) (k : PropKey) : JSVal :=
  match h !! r with
  | Some o => default JUndefined (o !! k)
  | None => JUndefined
  end.

(** [o[k] = v] on an ordinary (extensible) object. *)
Definition setProp (h : Heap) (r : ref) (k : PropKey) (v : JSVal) : Heap :=
  <[r := <[k := v]> (default ∅ (h !! r))]> h.

End JS.

(** ** JSON values *)

Module Json.

#[local] Set Warnings "-register-all".

(** What [JSON.parse] yields.  A number is kept by what the code at hand can
    see of it: whether it is zero, and the numeral that ToString gives for
    it.  The members of an object are kept in the order of the text. *)
Inductive JsonValue : Type :=
  | JsonNull
  | JsonBool (b : bool)
  | JsonNumber (zero : bool) (numeral : string)
  | JsonString (s : string)
  | JsonArray (items : list JsonValue)
  | JsonObject (members : list (string * JsonValue)).

(** ToBoolean: arrays and objects are truthy, also when empty. *)
Definition json_truthy (j : JsonValue) : bool :=
  match j with
  | JsonNull => false
  | JsonBool b => b
  | JsonNumber zero _ => negb zero
  | JsonString s => negb (String.eqb s "")
  | JsonArray _ | JsonObject _ => true
  end.

(** A number that is a small integer, such as the key of a row: its numeral
    is the decimal one. *)
Definition json_integer (n : Z) : JsonValue :=
  JsonNumber (n =? 0) (pretty n).

(** ToString, as a template literal applies it: an array joins its elements
    with commas, [null] among them as the empty string; an object is
    ["[object Object]"]. *)
Fixpoint json_to_string (j : JsonValue) : string :=
  match j with
  | JsonNull => "null"
  | JsonBool b => if b then "true" else "false"
  | JsonNumber _ numeral => numeral
  | JsonString s => s
  | JsonArray items =>
      let element x :=
        match x with
        | JsonNull => EmptyString
        | _ => json_to_string x
        end in
      String.concat "," (map element items)
  | JsonObject _ => "[object Object]"
  end.

(** The value of the key [k] among the members of an object: where the text
    repeats a key, [JSON.parse] keeps the last. *)
Fixpoint last_member (k : string) (members : list (string * JsonValue))
  : option JsonValue :=
  match members with
  | [] => None
  | (k', v) :: rest =>
      match last_member k rest with
      | Some x => Some x
      | None => if String.eqb k' k then Some v else None
      end
  end.

(** [j[k]] for a [j] other than [null]; [None] is [undefined].  Arrays,
    strings, numbers and booleans have no property of the names asked for
    here. *)
Definition json_member (j : JsonValue) (k : string) : option JsonValue :=
  match j with
  | JsonObject members => last_member k members
  | _ => None
  end.

End Json.

(** ** Regular expressions, as far as [sanitizePath] uses them *)

Module Regex.

Definition is_digit (c : ascii) : bool :=
  let n := nat_of_ascii c in ((48 <=? n) && (n <=? 57))%nat.

(** [[0-9a-f]] under the [i] flag. *)
Definition is_hex_ci (c : ascii) : bool :=
  let n := nat_of_ascii c in
  (is_digit c || ((97 <=? n) && (n <=? 102)) || ((65 <=? n) && (n <=? 70)))%nat.

Inductive atom : Type :=
  | Lit (c : ascii)
  | Class (p : ascii -> bool).

Inductive quant : Type :=
  | Once
  | Times (n : nat)       (* {n} *)
  | Plus.                 (* +, greedy *)

(** A pattern is a sequence of quantified atoms. *)
Definition regex := list (atom * quant).

Definition atom_ok (a : atom) (c : ascii) : bool :=
  match a with
  | Lit d => bool_decide (c = d)
  | Class p => p c
  end.

Fixpoint drop (n : nat) (s : string) : string :=
  match n, s with
  | S k, String _ t => drop k t
  | _, _ => s
  end.

Fixpoint count_while (p : ascii -> bool) (s : string) : nat :=
  match s with
  | String c t => if p c then S (count_while p t) else 0
  | EmptyString => 0
  end.

Fixpoint match_exact (p : ascii -> bool) (n : nat) (s : string) : bool :=
  match n with
  | O => true
  | S k => match s with
           | String c t => p c && match_exact p k t
           | EmptyString => false
           end
  end.

(** [match_at r s]: the length of the match of [r] anchored at the start of
    [s], if there is one.  A [Plus] takes the longest run and is never given
    back; for the two patterns of [sanitizePath] (fixed repetitions, and a
    [+] in last position) that is what a backtracking matcher finds too. *)
Fixpoint match_at (r : regex) (s : string) : option nat :=
  match r with
  | [] => Some O
  | (a, Once) :: r' =>
      match s with
      | String c t => if atom_ok a c then S <$> match_at r' t else None
      | EmptyString => None
      end
  | (a, Times n) :: r' =>
      if match_exact (atom_ok a) n s
      then Nat.add n <$> match_at r' (drop n s) else None
  | (a, Plus) :: r' =>
      let k := count_while (atom_ok a) s in
      match k with
      | O => None
      | S _ => Nat.add k <$> match_at r' (drop k s)
      end
  end.

(** [s.replace(/r/g, repl)]: scan from the left; at a match, emit [repl] and
    resume after it; elsewhere copy the character.  [skip] counts the
    characters of the current match that are still to be passed over. *)
Fixpoint replace_from (skip : nat) (r : regex) (repl : string) (s : string)
  : string :=
  match s with
  | EmptyString =>
      match skip, match_at r EmptyString with
      | O, Some _ => repl
      | _, _ => EmptyString
      end
  | String c t =>
      match skip with
      | S k => replace_from k r repl t
      | O =>
          match match_at r s with
          | Some (S len) => repl +:+ replace_from len r repl t
          | Some O => repl +:+ String c (replace_from O r repl t)
          | None => String c (replace_from O r repl t)
          end
      end
  end.

Definition replace_all (r : regex) (repl s : string) : string :=
  replace_from O r repl s.

End Regex.

(** ** The Node SDK: [sdks/node/src/index.ts] *)

Module Sdk.
Import JS Regex.

(** [const INGESTED = Symbol.for('error_ingested')] *)
Definition INGESTED : PropKey := KSym "error_ingested".

(** [/\/[0-9a-f]{8}-[0-9a-f]{4}-[0-9a-f]{4}-[0-9a-f]{4}-[0-9a-f]{12}/gi] *)
Definition uuid_re : regex :=
  [ (Lit "/"%char, Once);
    (Class is_hex_ci, Times 8); (Lit "-"%char, Once);
    (Class is_hex_ci, Times 4); (Lit "-"%char, Once);
    (Class is_hex_ci, Times 4); (Lit "-"%char, Once);
    (Class is_hex_ci, Times 4); (Lit "-"%char, Once);
    (Class is_hex_ci, Times 12) ].

(** [/\/\d+/g] *)
Definition numeric_re : regex :=
  [ (Lit "/"%char, Once); (Class is_digit, Plus) ].

Definition sanitizePath (path : string) : string :=
  let sanitized := path in
  let sanitized := replace_all uuid_re "/:id" sanitized in
  let sanitized := replace_all numeric_re "/:id" sanitized in
  sanitized.

(** [s.split('?')[0]] *)
Fixpoint before_query (s : string) : string :=
  match s with
  | EmptyString => EmptyString
  | String c t =>
      if bool_decide (c = "?"%char) then EmptyString
      else String c (before_query t)
  end.

(** *** Data of the middleware *)

Record ErrorIngestionOptions : Type := {
  apiUrl : string;
  projectKey : string;
  timeout : option Z;                (* [timeout?: number] *)
}.

(** What the handler reads of the Express request and response. *)
Record Request : Type := {
  req_method : string;
  req_path : string;
  req_originalUrl : option string;   (* [None]: undefined *)
}.

Record Response : Type := {
  res_statusCode : JSVal;
}.

Record ErrorEvent : Type := {
  message : JSVal;
  stack : JSVal;
  method : string;
  path : string;
  status_code : JSVal;
  timestamp : string;
}.

(** What the handler does to the outside world. *)
Inductive Effect : Type :=
  | AxiosPost (url project_key : string) (event : ErrorEvent)
              (timeout_ms : Z) (content_type : string)
  | CallNext (err : ref)
  | ConsoleWarn (msg : string).

(** *** Completions, state and effects

    A computation reads and writes the heap, emits effects in order, and
    either returns or throws. *)

Inductive Completion (A : Type) : Type :=
  | Normal (a : A)
  | Throw (reason : string).
Arguments Normal {A} a.
Arguments Throw {A} reason.

Record Run (A : Type) : Type := {
  effects : list Effect;
  heap : Heap;
  completion : Completion A;
}.
Arguments effects {A} _.
Arguments heap {A} _.
Arguments completion {A} _.

Definition M (A : Type) : Type := Heap -> Run A.

Definition ret {A} (a : A) : M A :=
  fun h => {| effects := []; heap := h; completion := Normal a |}.

Definition throw {A} (reason : string) : M A :=
  fun h => {| effects := []; heap := h; completion := Throw reason |}.

Definition bind {A B} (m : M A) (f : A -> M B) : M B :=
  fun h =>
    let r := m h in
    match completion r with
    | Normal a =>
        let r' := f a (heap r) in
        {| effects := effects r ++ effects r';
           heap := heap r'; completion := completion r' |}
    | Throw e =>
        {| effects := effects r; heap := heap r; completion := Throw e |}
    end.

(** [try { body } catch (e) { handler e }] *)
Definition try_catch {A} (body : M A) (handler : string -> M A) : M A :=
  fun h =>
    let r := body h in
    match completion r with
    | Normal _ => r
    | Throw e =>
        let r' := handler e (heap r) in
        {| effects := effects r ++ effects r';
           heap := heap r'; completion := completion r' |}
    end.

Definition emit (e : Effect) : M unit :=
  fun h => {| effects := [e]; heap := h; completion := Normal tt |}.

Definition readProp (r : ref) (k : PropKey) : M JSVal :=
  fun h => {| effects := []; heap := h; completion := Normal (getProp h r k) |}.

(** [r[k] = v] where [r] is an ordinary object, which takes any property;
    [Capture.writeProp] below is the assignment on every value. *)
Definition writeProp (r : ref) (k : PropKey) (v : JSVal) : M unit :=
  fun h => {| effects := []; heap := setProp h r k v; completion := Normal tt |}.

#[global] Instance M_ret : MRet M := @ret.
#[global] Instance M_bind : MBind M := fun A B f m => bind m f.

(** *** [sendErrorEvent]

    An [async] function runs up to its first [await] inside the caller's
    turn: the request is handed to axios there.  The rest of the body runs
    when the request has settled. *)

(** How [axios.post] settles: fulfilled, or rejected for one of the
    reasons axios knows, each with the [message] of its error. *)
Inductive PostOutcome : Type :=
  | PostOk
  | PostRejected (http_status : Z) (message : string)   (* non-2xx answer *)
  | PostNetworkError (message : string)
  | PostTimeout (message : string).

(** [axiosError.message] *)
Definition axios_error_message (o : PostOutcome) : string :=
  match o with
  | PostOk => EmptyString
  | PostRejected _ m | PostNetworkError m | PostTimeout m => m
  end.

(** [await p] rethrows the rejection of [p]. *)
Definition await_post (o : PostOutcome) : M unit :=
  match o with
  | PostOk => ret tt
  | _ => throw (axios_error_message o)
  end.

Definition sendErrorEvent_start (apiUrl projectKey : string)
    (event : ErrorEvent) (timeout : Z) : M unit :=
  emit (AxiosPost (apiUrl +:+ "/api/v1/events") projectKey event timeout
          "application/json").

(** [node_env] is [process.env.NODE_ENV]. *)
Definition sendErrorEvent_resume (node_env : option string)
    (o : PostOutcome) : M unit :=
  try_catch
    (await_post o)
    (fun error =>
       (if bool_decide (node_env = Some "development")
        then emit (ConsoleWarn
               ("[Error Ingestion SDK] Failed to send error event: " +:+ error))
        else ret tt) ;;
       ret tt).

(** The whole of [sendErrorEvent], for a request that settles as [o]. *)
Definition sendErrorEvent (apiUrl projectKey : string) (event : ErrorEvent)
    (timeout : Z) (node_env : option string) (o : PostOutcome) : M unit :=
  sendErrorEvent_start apiUrl projectKey event timeout;;
  sendErrorEvent_resume node_env o.

(** [p.catch(handler)]: a rejection of [p] is handed to [handler]. *)
Definition promise_catch (p : M unit) (handler : string -> M unit) : M unit :=
  try_catch p handler.

(** *** [errorIngestionMiddleware] *)

(** The handler's own turn.  [now] is [new Date().toISOString()].  The
    result tells whether a send is in flight when the handler returns. *)
Definition errorIngestionMiddleware (options : ErrorIngestionOptions)
    (now : string) (err : ref) (req : Request) (res : Response) : M bool :=
  let timeout := default 5000 (timeout options) in
  ingested ← readProp err INGESTED;
  if truthy ingested then
    emit (CallNext err);; ret false
  else
    writeProp err INGESTED (JBool true);;
    sc1 ← readProp err (KStr "statusCode");
    sc2 ← readProp err (KStr "status");
    let statusCode := js_or sc1 sc2 in
    let statusCode :=
      if negb (truthy statusCode) then
        if truthy (res_statusCode res)
           && strict_neq (res_statusCode res) (JNum 200)
        then res_statusCode res else JNum 500
      else statusCode in
    let pathToSanitize :=
      match req_originalUrl req with
      | Some u => if negb (String.eqb u "") then before_query u
                  else req_path req
      | None => req_path req
      end in
    let sanitizedPath := sanitizePath pathToSanitize in
    msg ← readProp err (KStr "message");
    stk ← readProp err (KStr "stack");
    let errorEvent :=
      {| message := js_or msg (JStr "Unknown error");
         stack := stk;
         method := req_method req;
         path := sanitizedPath;
         status_code := statusCode;
         timestamp := now |} in
    sendErrorEvent_start (apiUrl options) (projectKey options) errorEvent
      timeout;;
    emit (CallNext err);;
    ret true.

(** The later turn, when the request has settled: the rest of
    [sendErrorEvent], under the [.catch(() => {})] of the handler. *)
Definition settle_send (node_env : option string) (o : PostOutcome) : M unit :=
  promise_catch (sendErrorEvent_resume node_env o) (fun _ => ret tt).

(** One request seen whole: the handler's turn, then (if a send is in
    flight) the turn in which it settles. *)
Definition handle_error (options : ErrorIngestionOptions) (now : string)
    (node_env : option string) (err : ref) (req : Request) (res : Response)
    (o : PostOutcome) : M unit :=
  sent ← errorIngestionMiddleware options now err req res;
  if sent : bool then settle_send node_env o else ret tt.

(** The events posted among a list of effects, in order. *)
Definition posted_event (e : Effect) : option ErrorEvent :=
  match e with
  | AxiosPost _ _ event _ _ => Some event
  | CallNext _ | ConsoleWarn _ => None
  end.

Definition posted_events (es : list Effect) : list ErrorEvent :=
  omap posted_event es.


End Sdk.

(** ** The capture middleware on any value

    [Sdk] above is the handler on ordinary objects, to which a property can
    always be added.  Express hands an error handler whatever was thrown or
    passed to [next]: an object that may have been frozen, sealed or closed
    to extension, or a primitive.  This module is the handler on all of
    them.  The file is a module, so its code is strict: an assignment that
    cannot be carried out throws a [TypeError]. *)

Module Capture.
Import JS Regex.

(** A value: a primitive, or a reference to an object. *)
Inductive Value : Type :=
  | Prim (v : JSVal)
  | Obj (r : ref).

(** How far an object is closed.  After [Object.preventExtensions] or
    [Object.seal] no property can be added, but those it has can be written;
    after [Object.freeze] nothing can be written. *)
Inductive Integrity : Type :=
  | Extensible
  | NonExtensible
  | Frozen.

(** The heap, and for every object how far it is closed. *)
Record Store : Type := {
  objects : Heap;
  integrity : ref -> Integrity;
}.

Inductive Effect : Type :=
  | AxiosPost (url project_key : string) (event : Sdk.ErrorEvent)
              (timeout_ms : Z) (content_type : string)
  | CallNext (err : Value)
  | ConsoleWarn (msg : string).

(** A computation returns, or throws.  The one exception that is raised in
    this code is the [TypeError] of the engine. *)
Inductive Completion (A : Type) : Type :=
  | Normal (a : A)
  | ThrowTypeError.
Arguments Normal {A} a.
Arguments ThrowTypeError {A}.

Record Run (A : Type) : Type := {
  effects : list Effect;
  store : Store;
  completion : Completion A;
}.
Arguments effects {A} _.
Arguments store {A} _.
Arguments completion {A} _.

Definition M (A : Type) : Type := Store -> Run A.

Definition ret {A} (a : A) : M A :=
  fun s => {| effects := []; store := s; completion := Normal a |}.

Definition throwTypeError {A} : M A :=
  fun s => {| effects := []; store := s; completion := ThrowTypeError |}.

Definition bind {A B} (m : M A) (f : A -> M B) : M B :=
  fun s =>
    let r := m s in
    match completion r with
    | Normal a =>
        let r' := f a (store r) in
        {| effects := effects r ++ effects r';
           store := store r'; completion := completion r' |}
    | ThrowTypeError =>
        {| effects := effects r; store := store r;
           completion := ThrowTypeError |}
    end.

Definition emit (e : Effect) : M unit :=
  fun s => {| effects := [e]; store := s; completion := Normal tt |}.

#[global] Instance M_ret : MRet M := @ret.
#[global] Instance M_bind : MBind M := fun A B f m => bind m f.

(** [target[k]], for the keys that the handler reads.  On [undefined] and
    [null] the read throws; the other primitives have no property of these
    names, nor have their prototypes. *)
Definition readProp (target : Value) (k : PropKey) : M JSVal :=
  match target with
  | Obj r => fun s => ret (getProp (objects s) r k) s
  | Prim JUndefined | Prim JNull => throwTypeError
  | Prim _ => ret JUndefined
  end.

(** The object has a property of its own under [k]. *)
Definition has_own (s : Store) (r : ref) (k : PropKey) : bool :=
  match objects s !! r with
  | Some o => bool_decide (is_Some (o !! k))
  | None => false
  end.

(** Whether [r[k] = v] can be carried out. *)
Definition can_write (s : Store) (r : ref) (k : PropKey) : bool :=
  match integrity s r with
  | Extensible => true
  | NonExtensible => has_own s r k
  | Frozen => false
  end.

(** [target[k] = v] in strict code: on a primitive, and on an object that
    does not take the write, it throws. *)
Definition writeProp (target : Value) (k : PropKey) (v : JSVal) : M unit :=
  fun s =>
    match target with
    | Obj r =>
        if can_write s r k
        then {| effects := [];
                store := {| objects := setProp (objects s) r k v;
                            integrity := integrity s |};
                completion := Normal tt |}
        else throwTypeError s
    | Prim _ => throwTypeError s
    end.

(** *** [sendErrorEvent] *)

(** How the request settles: as axios settles it, or, where an interceptor
    or a test double answers in its place, with a rejection that carries any
    other value; here a primitive. *)
Inductive Settled : Type :=
  | Axios (o : Sdk.PostOutcome)
  | RejectedWith (reason : JSVal).

(** What the [catch (error)] of [sendErrorEvent] binds. *)
Inductive Reason : Type :=
  | AxiosError (message : string)
  | Primitive (v : JSVal).

(** [await axios.post(...)] returns, or throws the reason of the
    rejection. *)
Definition awaited (o : Settled) : option Reason :=
  match o with
  | Axios Sdk.PostOk => None
  | Axios o' => Some (AxiosError (Sdk.axios_error_message o'))
  | RejectedWith v => Some (Primitive v)
  end.

(** [`${axiosError.message}`]: the message of an error of axios is a
    string; reading [message] on [undefined] or [null] throws; any other
    primitive has no [message], and [undefined] reads ["undefined"] in a
    template. *)
Definition message_text (error : Reason) : M string :=
  match error with
  | AxiosError m => ret m
  | Primitive JUndefined | Primitive JNull => throwTypeError
  | Primitive _ => ret "undefined"
  end.

Definition sendErrorEvent_start (apiUrl projectKey : string)
    (event : Sdk.ErrorEvent) (timeout : Z) : M unit :=
  emit (AxiosPost (apiUrl +:+ "/api/v1/events") projectKey event timeout
          "application/json").

(** The rest of [sendErrorEvent], when the request has settled: the
    [await] inside the [try], and the [catch] block. *)
Definition sendErrorEvent_resume (node_env : option string) (o : Settled)
  : M unit :=
  match awaited o with
  | None => ret tt
  | Some error =>
      (if bool_decide (node_env = Some "development")
       then
         message ← message_text error;
         emit (ConsoleWarn
                 ("[Error Ingestion SDK] Failed to send error event: "
                  +:+ message))
       else ret tt);;
      ret tt
  end.

Definition sendErrorEvent (apiUrl projectKey : string)
    (event : Sdk.ErrorEvent) (timeout : Z) (node_env : option string)
    (o : Settled) : M unit :=
  sendErrorEvent_start apiUrl projectKey event timeout;;
  sendErrorEvent_resume node_env o.

(** [p.catch(() => { handler })]: a rejection of [p] is handed to the
    handler, which does not look at it. *)
Definition promise_catch (p : M unit) (handler : M unit) : M unit :=
  fun s =>
    let r := p s in
    match completion r with
    | Normal _ => r
    | ThrowTypeError =>
        let r' := handler (store r) in
        {| effects := effects r ++ effects r';
           store := store r'; completion := completion r' |}
    end.

(** *** [errorIngestionMiddleware] *)

(** The handler's own turn, on any value [err]. *)
Definition errorIngestionMiddleware (options : Sdk.ErrorIngestionOptions)
    (now : string) (err : Value) (req : Sdk.Request) (res : Sdk.Response)
  : M bool :=
  let timeout := default 5000 (Sdk.timeout options) in
  ingested ← readProp err Sdk.INGESTED;
  if truthy ingested then
    emit (CallNext err);; ret false
  else
    writeProp err Sdk.INGESTED (JBool true);;
    sc1 ← readProp err (KStr "statusCode");
    sc2 ← readProp err (KStr "status");
    let statusCode := js_or sc1 sc2 in
    let statusCode :=
      if negb (truthy statusCode) then
        if truthy (Sdk.res_statusCode res)
           && strict_neq (Sdk.res_statusCode res) (JNum 200)
        then Sdk.res_statusCode res else JNum 500
      else statusCode in
    let pathToSanitize :=
      match Sdk.req_originalUrl req with
      | Some u => if negb (String.eqb u "") then Sdk.before_query u
                  else Sdk.req_path req
      | None => Sdk.req_path req
      end in
    let sanitizedPath := Sdk.sanitizePath pathToSanitize in
    msg ← readProp err (KStr "message");
    stk ← readProp err (KStr "stack");
    let errorEvent :=
      {| Sdk.message := js_or msg (JStr "Unknown error");
         Sdk.stack := stk;
         Sdk.method := Sdk.req_method req;
         Sdk.path := sanitizedPath;
         Sdk.status_code := statusCode;
         Sdk.timestamp := now |} in
    sendErrorEvent_start (Sdk.apiUrl options) (Sdk.projectKey options)
      errorEvent timeout;;
    emit (CallNext err);;
    ret true.

(** The later turn: the rest of [sendErrorEvent], under the
    [.catch(() => {})] of the handler. *)
Definition settle_send (node_env : option string) (o : Settled) : M unit :=
  promise_catch (sendErrorEvent_resume node_env o) (ret tt).

(** One request seen whole: the handler's turn, then (if a send is in
    flight) the turn in which it settles. *)
Definition handle_error (options : Sdk.ErrorIngestionOptions) (now : string)
    (node_env : option string) (err : Value) (req : Sdk.Request)
    (res : Sdk.Response) (o : Settled) : M unit :=
  sent ← errorIngestionMiddleware options now err req res;
  if sent : bool then settle_send node_env o else ret tt.

(** Whether [err] carries the marker or can be given it. *)
Definition takes_marker (s : Store) (err : Value) : bool :=
  match err with
  | Obj r =>
      truthy (getProp (objects s) r Sdk.INGESTED)
      || can_write s r Sdk.INGESTED
  | Prim _ => false
  end.

(** A run of [Sdk], read as a run on the store [s]: the heap it leaves
    takes the place of the objects, and [next] was called with the object. *)
Definition of_sdk_effect (e : Sdk.Effect) : Effect :=
  match e with
  | Sdk.AxiosPost url key event timeout_ms ct =>
      AxiosPost url key event timeout_ms ct
  | Sdk.CallNext r => CallNext (Obj r)
  | Sdk.ConsoleWarn msg => ConsoleWarn msg
  end.

Definition of_sdk_run {A} (s : Store) (r : Sdk.Run A) : Run A :=
  {| effects := of_sdk_effect <$> Sdk.effects r;
     store := {| objects := Sdk.heap r; integrity := integrity s |};
     completion :=
       match Sdk.completion r with
       | Sdk.Normal a => Normal a
       | Sdk.Throw _ => ThrowTypeError
       end |}.

End Capture.

(** ** The dashboard: token storage and the error-detail page *)

Module Frontend.

(** [localStorage]: string keys, string values. *)
Abbreviation Storage := (gmap string string).

Definition getItem (ls : Storage) (k : string) : option string := ls !! k.
Definition setItem (ls : Storage) (k v : string) : Storage := <[k := v]> ls.
Definition removeItem (ls : Storage) (k : string) : Storage := delete k ls.

(** *** [frontend/lib/api.ts] *)

Definition API_TOKEN_KEY : string := "debug_ai_api_token".

(** [window] is [None] on the server ([typeof window === 'undefined']) and
    carries the browser's [localStorage] otherwise. *)
Definition getApiToken (window : option Storage) : option string :=
  match window with
  | None => None
  | Some ls => getItem ls API_TOKEN_KEY
  end.

Definition setApiToken (token : string) (window : option Storage)
  : option Storage :=
  match window with
  | Some ls => Some (setItem ls API_TOKEN_KEY token)
  | None => None
  end.

Definition clearApiToken (window : option Storage) : option Storage :=
  match window with
  | Some ls => Some (removeItem ls API_TOKEN_KEY)
  | None => None
  end.

(** The writes the API client can make to the storage. *)
Inductive ApiOp : Type :=
  | OpSetApiToken (token : string)
  | OpClearApiToken.

Definition apply_op (window : option Storage) (op : ApiOp) : option Storage :=
  match op with
  | OpSetApiToken t => setApiToken t window
  | OpClearApiToken => clearApiToken window
  end.

Definition apply_ops (ops : list ApiOp) (window : option Storage)
  : option Storage :=
  fold_left apply_op ops window.

(** *** [ErrorDetailPage]: the wait before the first fetch *)

(** What the executor of the "wait for token" promise leaves behind:
    either it has resolved at once, or a timer and a one-shot listener are
    armed and the first of the two resolves it. *)
Inductive TokenWait : Type :=
  | ResolvedAtOnce
  | WaitsFor (event : string) (timeout_ms : Z).

(** [const token = localStorage.getItem(key); if (token) { resolve(); return; }
     const timeout = setTimeout(resolve, 2000); ...
     window.addEventListener('user-synced', handler, { once: true });] *)
Definition wait_for_token (key : string) (ls : Storage) : TokenWait :=
  match getItem ls key with
  | Some token =>
      if negb (String.eqb token "") then ResolvedAtOnce
      else WaitsFor "user-synced" 2000
  | None => WaitsFor "user-synced" 2000
  end.

(** The page with the loading skeleton and the source-code badge reads this
    key. *)
Definition ErrorDetailPage_token_key : string := "stackwise_api_token".

Definition ErrorDetailPage_wait (ls : Storage) : TokenWait :=
  wait_for_token ErrorDetailPage_token_key ls.

(** The copy of the page under [frontend/app/projects/[projectId]/errors/[errorId]]
    reads the key of the API client. *)
Definition ErrorDetailPage_app_wait (ls : Storage) : TokenWait :=
  wait_for_token "debug_ai_api_token" ls.

End Frontend.

(** ** The analysis pipeline

    The backend (trigger policy, Celery task, retry settings) is written in
    Python and is not among the sources at hand; the tree only documents it.
    This module follows the written specification instead. *)

Module Pipeline.

(** *** Data model *)

(** Modelled from the spec: the repository coordinate of a Project (the
    backend models are missing). *)
Record RepoCoordinate : Type := {
  provider : string;
  owner : string;
  repo : string;
  branch : string;
}.

(** Modelled from the spec: a Project; the repository is optional (the
    backend models are missing). *)
Record Project : Type := {
  repository : option RepoCoordinate;
}.

(** Modelled from the spec: the stored ErrorEvent (the backend models are
    missing). *)
Record ErrorEvent : Type := {
  id : nat;
  project : nat;
  timestamp : string;
  status_code : option Z;
  message : string;
  stack : option string;
  http_method : string;
  sanitized_path : string;
}.

(** Modelled from the spec: a StackFrame, derived and never persisted (the
    stack trace interpreter is missing). *)
Record StackFrame : Type := {
  file : string;
  line : nat;
  symbol : option string;
}.

(** Modelled from the spec: the AnalysisRecord (the backend models are
    missing). *)
Record AnalysisRecord : Type := {
  error_event_id : nat;
  analysis_text : string;
  model : string;
  confidence : option string;
  has_source_code : bool;
  created_at : string;
}.

(** Modelled from the spec: the states of the retry machine of section 4.5
    (the Celery configuration is missing). *)
Inductive TaskState : Type :=
  | Pending
  | InFlight
  | Succeeded
  | RetryScheduled
  | Dead.

(** Modelled from the spec: the TaskRecord (the broker is missing).
    [attempts] is the ordinal of the attempt the task is waiting for or
    running: 1 for a task that was never tried. *)
Record TaskRecord : Type := {
  task_event : nat;
  attempts : nat;
  state : TaskState;
  next_eligible : Z;
}.

(** Modelled from the spec: the two shared tables and the projects (the
    database layer is missing).  The analyses are kept as a list, so that a
    second record for one event is expressible. *)
Record DB : Type := {
  events : gmap nat ErrorEvent;
  projects : gmap nat Project;
  analyses : list AnalysisRecord;
}.

(** *** External interfaces *)

(** Modelled from the spec: the answers of [fetchSnippet] (the source
    repository fetcher is missing). *)
Inductive FetchResult : Type :=
  | Snippet (text : string)
  | NotFound
  | AccessDenied
  | NetworkError.

(** Modelled from the spec: what [analyze] returns (the analysis engine is
    missing). *)
Record EngineOutput : Type := {
  out_text : string;
  out_model : string;
  out_confidence : option string;
}.

(** Modelled from the spec: the collaborators of section 6 as one attempt
    finds them (their implementations are missing).  [analyze] answers [None]
    when the engine call fails; [database_up] is false when the insert of
    step 6 fails for a reason other than the uniqueness constraint. *)
Record World : Type := {
  parse_stack : string -> list StackFrame;
  in_repository : RepoCoordinate -> StackFrame -> bool;
  max_frames : nat;
  fetchSnippet : RepoCoordinate -> StackFrame -> FetchResult;
  analyze : string -> list StackFrame -> list string -> option EngineOutput;
  database_up : bool;
  clock : string;
}.

(** *** Trigger policy (section 4.1) *)

(** Modelled from the spec: [decide(event)], "enqueues only when
    status_code != null AND status_code >= 500" (the ingestion endpoint is
    missing). *)
Definition decide (ev : ErrorEvent) : bool :=
  match status_code ev with
  | Some c => 500 <=? c
  | None => false
  end.

Definition new_task (eid : nat) : TaskRecord :=
  {| task_event := eid; attempts := 1; state := Pending; next_eligible := 0 |}.

(** Modelled from the spec: [onErrorStored(event)]; a failure of the broker
    is swallowed (the ingestion endpoint is missing). *)
Definition onErrorStored (broker_up : bool) (queue : list TaskRecord)
    (ev : ErrorEvent) : list TaskRecord :=
  if decide ev then
    if broker_up then queue ++ [new_task (id ev)] else queue
  else queue.

(** *** Analysis workflow (section 4.4) *)

Definition has_analysis (db : DB) (eid : nat) : bool :=
  existsb (fun a => Nat.eqb (error_event_id a) eid) (analyses db).

(** Modelled from the spec: [getAnalysis(error_event_id)], the read surface
    (the API layer is missing). *)
Definition getAnalysis (db : DB) (eid : nat) : option AnalysisRecord :=
  find (fun a => Nat.eqb (error_event_id a) eid) (analyses db).

Inductive Outcome : Type :=
  | AckNoop
  | AckSuccess
  | Failed.

Inductive Prepared : Type :=
  | PrepNoop
  | PrepFailed
  | PrepReady (a : AnalysisRecord).

(** Modelled from the spec: the frames whose snippet is asked for in step
    4, those inside the repository and at most [max_frames] of them (the
    Celery task is missing). *)
Definition candidates (w : World) (rc : RepoCoordinate)
    (frames : list StackFrame) : list StackFrame :=
  take (max_frames w) (filter (fun f => in_repository w rc f = true) frames).

Definition snippet_of (r : FetchResult) : option string :=
  match r with
  | Snippet text => Some text
  | NotFound | AccessDenied | NetworkError => None
  end.

(** Modelled from the spec: step 4, where a frame whose fetch fails
    contributes nothing (the Celery task is missing). *)
Definition fetch_snippets (w : World) (rc : RepoCoordinate)
    (frames : list StackFrame) : list string :=
  omap (fun f => snippet_of (fetchSnippet w rc f)) (candidates w rc frames).

Definition frames_of (w : World) (ev : ErrorEvent) : list StackFrame :=
  match stack ev with
  | Some s => parse_stack w s
  | None => []
  end.

Definition repository_of (db : DB) (ev : ErrorEvent) : option RepoCoordinate :=
  match projects db !! project ev with
  | Some p => repository p
  | None => None
  end.

(** Modelled from the spec: steps 1 to 5 of the workflow, which read the
    database once, at the idempotency check (the Celery task is missing).
    An event that cannot be fetched fails the attempt. *)
Definition prepare (w : World) (db : DB) (t : TaskRecord) : Prepared :=
  match events db !! task_event t with
  | None => PrepFailed
  | Some ev =>
      if has_analysis db (task_event t) then PrepNoop
      else
        match status_code ev with
        | None => PrepNoop
        | Some c =>
            if c <? 500 then PrepNoop
            else
              let frames := frames_of w ev in
              let snippets :=
                match repository_of db ev with
                | Some rc => fetch_snippets w rc frames
                | None => []
                end in
              match analyze w (message ev) frames snippets with
              | None => PrepFailed
              | Some out =>
                  PrepReady
                    {| error_event_id := task_event t;
                       analysis_text := out_text out;
                       model := out_model out;
                       confidence := out_confidence out;
                       has_source_code := (1 <=? length snippets)%nat;
                       created_at := clock w |}
              end
        end
  end.

(** Modelled from the spec: step 6, the insert under the uniqueness
    constraint on [error_event_id]; the insert that loses the race is
    "already analyzed" and is discarded (the database layer is missing). *)
Definition persist (w : World) (db : DB) (a : AnalysisRecord) : DB * Outcome :=
  if negb (database_up w) then (db, Failed)
  else if has_analysis db (error_event_id a) then (db, AckNoop)
  else ({| events := events db; projects := projects db;
           analyses := a :: analyses db |}, AckSuccess).

(** Modelled from the spec: one attempt, steps 1 to 6 in a row, by a worker
    that is not interleaved with another (the Celery task is missing). *)
Definition process (w : World) (db : DB) (t : TaskRecord) : DB * Outcome :=
  match prepare w db t with
  | PrepNoop => (db, AckNoop)
  | PrepFailed => (db, Failed)
  | PrepReady a => persist w db a
  end.

(** *** Workers side by side (section 5)

    A worker is between its steps either before the idempotency check,
    between the engine call and the insert, or done.  A schedule names the
    worker that moves next. *)

(** Modelled from the spec: where a worker of the pool stands (the worker
    harness is missing). *)
Inductive WorkerState : Type :=
  | Idle
  | Holding (a : AnalysisRecord)
  | Finished (o : Outcome).

Record Worker : Type := {
  world : World;
  task : TaskRecord;
  wstate : WorkerState;
}.

(** Modelled from the spec: a worker's next move; the steps that touch the
    database, the idempotency check and the insert, are separate moves, so
    that another worker can come in between (the worker harness is
    missing). *)
Definition worker_step (db : DB) (wk : Worker) : DB * Worker :=
  match wstate wk with
  | Idle =>
      let s :=
        match prepare (world wk) db (task wk) with
        | PrepNoop => Finished AckNoop
        | PrepFailed => Finished Failed
        | PrepReady a => Holding a
        end in
      (db, {| world := world wk; task := task wk; wstate := s |})
  | Holding a =>
      let '(db', o) := persist (world wk) db a in
      (db', {| world := world wk; task := task wk; wstate := Finished o |})
  | Finished _ => (db, wk)
  end.

Definition pool_step (st : DB * list Worker) (i : nat) : DB * list Worker :=
  match st.2 !! i with
  | Some wk =>
      let '(db', wk') := worker_step st.1 wk in (db', <[i := wk']> st.2)
  | None => st
  end.

Definition run_schedule (schedule : list nat) (st : DB * list Worker)
  : DB * list Worker :=
  fold_left pool_step schedule st.

Definition finished (wk : Worker) : bool :=
  match wstate wk with Finished _ => true | _ => false end.

(** The number of analyses stored for an event. *)
Definition count_for (db : DB) (eid : nat) : nat :=
  length (filter (fun a => error_event_id a = eid) (analyses db)).

(** The uniqueness constraint, as a property of a database. *)
Definition unique_analyses (db : DB) : Prop :=
  NoDup (map error_event_id (analyses db)).

(** A worker that was handed a delivery of the task for [eid], in a world
    where the engine and the database answer. *)
Definition delivery_of (eid : nat) (wk : Worker) : Prop :=
  task_event (task wk) = eid
  /\ (forall m fs ss, is_Some (analyze (world wk) m fs ss))
  /\ database_up (world wk) = true.

(** Where such a worker can be, relative to the database: what it holds is
    a record for [eid], and once it is done the analysis of [eid] is stored. *)
Definition on_track (eid : nat) (db : DB) (wk : Worker) : Prop :=
  match wstate wk with
  | Idle => True
  | Holding a => error_event_id a = eid
  | Finished _ => has_analysis db eid = true
  end.

(** A worker that holds no record for [eid]. *)
Definition holds_nothing_for (eid : nat) (wk : Worker) : Prop :=
  forall a, wstate wk = Holding a -> error_event_id a <> eid.

Definition idle (wk : Worker) : Prop := wstate wk = Idle.

Definition engine_down (w : World) : Prop :=
  forall m fs ss, analyze w m fs ss = None.

(** *** Retry and backoff (section 4.5) *)

Definition MAX_ATTEMPTS : nat := 3.

(** Ten minutes, in seconds. *)
Definition MAX_DELAY : Z := 600.

(** Modelled from the spec: "exponential backoff from attempt count, capped
    at a maximum delay" (the Celery configuration is missing; the spec leaves
    the delay of the first retry, [base], open). *)
Definition backoff (base : Z) (attempt : nat) : Z :=
  Z.min (base * 2 ^ Z.of_nat attempt) MAX_DELAY.

(** Modelled from the spec: a task can be handed to a worker when it is
    new, or when its retry is due (the broker is missing). *)
Definition eligible (now : Z) (t : TaskRecord) : bool :=
  match state t with
  | Pending => true
  | RetryScheduled => next_eligible t <=? now
  | InFlight | Succeeded | Dead => false
  end.

(** [pending -> in-flight], [retry-scheduled -> in-flight] *)
Definition dequeue (t : TaskRecord) : TaskRecord :=
  {| task_event := task_event t; attempts := attempts t;
     state := InFlight; next_eligible := next_eligible t |}.

(** Modelled from the spec: how an attempt ends (the Celery configuration is
    missing).  On an exception the attempt counter increments; the task is
    dead once the counter exceeds the maximum, and is rescheduled after the
    backoff delay otherwise. *)
Definition settle (base now : Z) (t : TaskRecord) (o : Outcome) : TaskRecord :=
  match o with
  | AckNoop | AckSuccess =>
      {| task_event := task_event t; attempts := attempts t;
         state := Succeeded; next_eligible := next_eligible t |}
  | Failed =>
      let n := S (attempts t) in
      if (MAX_ATTEMPTS <? n)%nat then
        {| task_event := task_event t; attempts := n;
           state := Dead; next_eligible := next_eligible t |}
      else
        {| task_event := task_event t; attempts := n;
           state := RetryScheduled;
           next_eligible := now + backoff base (attempts t) |}
  end.

(** The life of one task: the database, the task, and how many attempts
    have been run. *)
Record Life : Type := {
  life_db : DB;
  life_task : TaskRecord;
  executions : nat;
}.

(** Modelled from the spec: the broker offers the task at time [now]; a
    worker runs the attempt in the world [w] if the task is eligible (the
    broker and the worker harness are missing). *)
Definition deliver (base : Z) (l : Life) (d : Z * World) : Life :=
  let '(now, w) := d in
  if eligible now (life_task l) then
    let t := dequeue (life_task l) in
    let '(db', o) := process w (life_db l) t in
    {| life_db := db'; life_task := settle base now t o;
       executions := S (executions l) |}
  else l.

Definition run_deliveries (base : Z) (ds : list (Z * World)) (l : Life)
  : Life :=
  fold_left (deliver base) ds l.

Definition start_life (db : DB) (eid : nat) : Life :=
  {| life_db := db; life_task := new_task eid; executions := 0 |}.

(** Between deliveries: a task that can still be tried is waiting for the
    attempt after those already run, and that attempt is within the maximum;
    a task that is over has not been run more often than the maximum. *)
Definition within_budget (l : Life) : Prop :=
  match state (life_task l) with
  | Pending | RetryScheduled =>
      attempts (life_task l) = S (executions l)
      /\ (executions l < MAX_ATTEMPTS)%nat
  | Succeeded =>
      (executions l <= MAX_ATTEMPTS)%nat
      /\ (attempts (life_task l) <= MAX_ATTEMPTS)%nat
  | Dead =>
      executions l = MAX_ATTEMPTS
      /\ (MAX_ATTEMPTS < attempts (life_task l))%nat
  | InFlight => False
  end.

(** A life in which every attempt so far has failed. *)
Definition only_failures (db : DB) (eid : nat) (l : Life) : Prop :=
  life_db l = db /\ task_event (life_task l) = eid
  /\ state (life_task l) <> Succeeded.

End Pipeline.

(** ** Paths by segment

    What the sanitizer is meant to do, said segment by segment and without
    reference to the regular expressions: the yardstick for [sanitizePath]. *)

Module PathSpec.
Import Regex.

Fixpoint no_char (c : ascii) (s : string) : bool :=
  match s with
  | EmptyString => true
  | String d t => negb (bool_decide (d = c)) && no_char c t
  end.

(** [join_segments [s1; s2; ...]] is [/s1/s2...]. *)
Fixpoint join_segments (segs : list string) : string :=
  match segs with
  | [] => EmptyString
  | seg :: rest => String "/" (seg +:+ join_segments rest)
  end.

(** The text before the first slash, and the segments after it. *)
Fixpoint split_path (s : string) : string * list string :=
  match s with
  | EmptyString => (EmptyString, [])
  | String c t =>
      let '(pre, segs) := split_path t in
      if bool_decide (c = "/"%char) then (EmptyString, pre :: segs)
      else (String c pre, segs)
  end.

(** [n] hexadecimal digits of either case, then the rest. *)
Definition hex_run (n : nat) (s : string) : option string :=
  if match_exact is_hex_ci n s then Some (drop n s) else None.

Definition dash (s : string) : option string :=
  match s with
  | String c t => if bool_decide (c = "-"%char) then Some t else None
  | EmptyString => None
  end.

(** What follows a UUID (8-4-4-4-12 hexadecimal digits) at the start of
    [s], if [s] starts with one. *)
Definition uuid_rest (s : string) : option string :=
  s1 ← hex_run 8 s; s2 ← dash s1;
  s3 ← hex_run 4 s2; s4 ← dash s3;
  s5 ← hex_run 4 s4; s6 ← dash s5;
  s7 ← hex_run 4 s6; s8 ← dash s7;
  hex_run 12 s8.

Definition uuid_shaped (s : string) : bool :=
  bool_decide (uuid_rest s = Some EmptyString).

Definition all_digits (s : string) : bool :=
  (count_while is_digit s =? String.length s)%nat
  && negb (String.eqb s "").

(** A segment that starts with a UUID loses it to [:id]; failing that, a
    segment that starts with digits loses them to [:id]; what follows in the
    segment stays. *)
Definition sanitize_segment (seg : string) : string :=
  match uuid_rest seg with
  | Some rest => ":id" +:+ rest
  | None =>
      match count_while is_digit seg with
      | O => seg
      | S _ as k => ":id" +:+ drop k seg
      end
  end.

(** Where a segment ends: at the end of the path or before a slash. *)
Definition boundary (rest : string) : Prop :=
  rest = EmptyString \/ exists t, rest = String "/" t.

(** No atom of the pattern accepts a slash. *)
Definition slash_free (r : regex) : Prop :=
  Forall (fun aq => atom_ok aq.1 "/"%char = false) r.

End PathSpec.

(** ** JavaScript strings: [startsWith] and [includes] *)

Module JsString.

(** [s.startsWith(prefix)] *)
Fixpoint startsWith (s prefix : string) : bool :=
  match prefix, s with
  | EmptyString, _ => true
  | String _ _, EmptyString => false
  | String a p, String b t => bool_decide (b = a) && startsWith t p
  end.

(** [s.includes(needle)] *)
Fixpoint includes (s needle : string) : bool :=
  startsWith s needle
  || match s with
     | EmptyString => false
     | String _ t => includes t needle
     end.

(** ToBoolean of a [string | null | undefined]. *)
Definition truthy_string (o : option string) : bool :=
  match o with
  | Some s => negb (String.eqb s "")
  | None => false
  end.

(** The line terminators that [.] of a regular expression does not match.
    Strings are sequences of 8-bit characters here, which is all that a URL
    path holds; U+2028 and U+2029 do not occur. *)
Definition line_terminator (c : ascii) : bool :=
  bool_decide (c = "010"%char) || bool_decide (c = "013"%char).

(** No line terminator in [s]. *)
Fixpoint single_line (s : string) : bool :=
  match s with
  | EmptyString => true
  | String c t => negb (line_terminator c) && single_line t
  end.

(** [.*] followed by what [p] accepts: some split of [s] has a first part
    without line terminators and a second part that [p] accepts. *)
Fixpoint dot_star_then (p : string -> bool) (s : string) : bool :=
  p s
  || match s with
     | EmptyString => false
     | String c t => negb (line_terminator c) && dot_star_then p t
     end.

End JsString.

(** ** The API client: the rest of [frontend/lib/api.ts]

    Console output is left out. *)

Module Api.
Import Frontend JsString Json.

(** [process.env.NEXT_PUBLIC_API_BASE_URL || 'http://localhost:8000'] *)
Definition API_BASE_URL (env : option string) : string :=
  if truthy_string env then default EmptyString env
  else "http://localhost:8000".

(** An [Error] as the client sees it.  [statusCode] and [detail] are the two
    public members of [ApiClientError]; other errors have neither.  [detail]
    is declared a string, but holds whatever the constructor was handed. *)
Record JsError : Type := {
  name : string;
  message : string;
  statusCode : option Z;
  detail : option JsonValue;
}.

(** [new ApiClientError(message, statusCode, detail)]: the constructor sets
    [this.name = 'ApiClientError']. *)
Definition ApiClientError (message : string) (statusCode : Z)
    (detail : JsonValue) : JsError :=
  {| name := "ApiClientError"; message := message;
     statusCode := Some statusCode; detail := Some detail |}.

(** What [response.json()] comes to: the parsed body, as the [T] the caller
    takes it for and as the JSON value it is, or a rejection. *)
Inductive JsonResult (T : Type) : Type :=
  | Parsed (value : T) (body : JsonValue)
  | ParseFails (e : JsError).
Arguments Parsed {T} value body.
Arguments ParseFails {T} e.

Record HttpResponse (T : Type) : Type := {
  status : Z;
  statusText : string;
  content_type : option string;     (* [headers.get('content-type')] *)
  json : JsonResult T;
}.
Arguments status {T} _.
Arguments statusText {T} _.
Arguments content_type {T} _.
Arguments json {T} _.

(** [response.ok] *)
Definition ok {T} (r : HttpResponse T) : bool :=
  (200 <=? status r) && (status r <=? 299).

(** How [fetch] settles.  The abort of the 10 second timer is a rejection
    with the name [AbortError]. *)
Inductive FetchOutcome (T : Type) : Type :=
  | Responds (r : HttpResponse T)
  | FetchRejects (e : JsError).
Arguments Responds {T} r.
Arguments FetchRejects {T} e.

Record RequestInit : Type := {
  method : option string;
  body : option string;
  headers : gmap string string;
}.

(** What is handed to [fetch]. *)
Record FetchCall : Type := {
  url : string;
  sent_method : option string;
  sent_body : option string;
  sent_headers : gmap string string;
}.

(** What the promise of [apiRequest] comes to; [ResolvedEmpty] is
    [{} as T]. *)
Inductive ApiResult (T : Type) : Type :=
  | Resolved (v : T)
  | ResolvedEmpty
  | Rejected (e : JsError).
Arguments Resolved {T} v.
Arguments ResolvedEmpty {T}.
Arguments Rejected {T} e.

(** [{ 'Content-Type': 'application/json', ...options.headers }], then
    [headers['Authorization'] = `Bearer ${token}`] if there is a token. *)
Definition request_headers (window : option Storage) (options : RequestInit)
    (requireAuth : bool) : gmap string string :=
  let token := if requireAuth then getApiToken window else None in
  let headers := headers options ∪ {[ "Content-Type" := "application/json" ]} in
  if truthy_string token
  then <[ "Authorization" := "Bearer " +:+ default EmptyString token ]> headers
  else headers.

(** The error thrown for a request that was aborted. *)
Definition timeout_error : JsError :=
  ApiClientError
    "Request timeout: Backend server did not respond in time. Please ensure the backend is running."
    408 (JsonString "Request timeout").

(** The [catch (error)] block of [apiRequest]. *)
Definition on_error {T} (error : JsError) : ApiResult T :=
  if String.eqb (name error) "AbortError" || includes (message error) "aborted"
  then Rejected timeout_error
  else Rejected error.

(** [errorData.detail || response.statusText] under its [try], and
    [response.statusText] from the [catch]: when the body does not parse, and
    when it is [null], on which reading [detail] throws.  Whatever truthy
    value [detail] holds is taken, a string or not. *)
Definition error_detail {T} (r : HttpResponse T) : JsonValue :=
  match json r with
  | Parsed _ JsonNull => JsonString (statusText r)
  | Parsed _ errorData =>
      match json_member errorData "detail" with
      | Some d => if json_truthy d then d else JsonString (statusText r)
      | None => JsonString (statusText r)
      end
  | ParseFails _ => JsonString (statusText r)
  end.

(** [apiRequest(endpoint, options, requireAuth)], for a [fetch] that settles
    as [o]: the call made, and what the promise comes to.  The error thrown
    for a response that is not ok is thrown inside the [try], so it passes
    through the [catch] block; the [response.json()] of an ok response is
    returned without [await], so its rejection does not. *)
Definition apiRequest {T} (base_url : string) (window : option Storage)
    (endpoint : string) (options : RequestInit) (requireAuth : bool)
    (o : FetchOutcome T) : FetchCall * ApiResult T :=
  let call :=
    {| url := base_url +:+ endpoint;
       sent_method := method options;
       sent_body := body options;
       sent_headers := request_headers window options requireAuth |} in
  (call,
   match o with
   | FetchRejects error => on_error error
   | Responds response =>
       if negb (ok response) then
         let errorDetail := error_detail response in
         on_error (ApiClientError
                     ("API request failed: " +:+ json_to_string errorDetail)
                     (status response) errorDetail)
       else
         let contentType := content_type response in
         if truthy_string contentType
            && includes (default EmptyString contentType) "application/json"
         then match json response with
              | Parsed v _ => Resolved v
              | ParseFails e => Rejected e
              end
         else ResolvedEmpty
   end).

Record User : Type := {
  id : Z;
  github_id : string;
  username : string;
  email : option string;
  user_name : option string;
  avatar_url : option string;
  api_token : string;
  created_at : string;
}.



(** [api.syncUser(userData)]; [body] is [JSON.stringify(userData)].  The
    result is the storage afterwards and what the promise comes to.  An
    answer without a JSON content type makes [user] the empty object, whose
    [api_token] is [undefined], which [localStorage.setItem] stores as the
    string ["undefined"]. *)
Definition syncUser (base_url : string) (window : option Storage)
    (body : string) (o : FetchOutcome User)
  : FetchCall * option Storage * ApiResult User :=
  let '(call, r) :=
    apiRequest base_url window "/api/v1/auth/sync-user"
      {| method := Some "POST"; body := Some body; headers := ∅ |} false o in
  match r with
  | Resolved user => (call, setApiToken (api_token user) window, r)
  | ResolvedEmpty => (call, setApiToken "undefined" window, r)
  | Rejected _ => (call, window, r)
  end.

End Api.

(** ** The error-detail page: effect, fetch and view *)

Module DetailPage.
Import JsString Api.

(** What [errorData] can hold besides [null]: the answer of the backend,
    or the empty object that [apiRequest] returns for an answer without a
    JSON content type. *)
Inductive Loaded (D : Type) : Type :=
  | LoadedData (d : D)
  | LoadedEmptyObject.
Arguments LoadedData {D} d.
Arguments LoadedEmptyObject {D}.

(** The three [useState] cells and the [useRef] cell of the component. *)
Record PageState (D : Type) : Type := {
  errorData : option (Loaded D);
  error : option string;
  loading : bool;
  hasFetchedRef : bool;
}.
Arguments errorData {D} _.
Arguments error {D} _.
Arguments loading {D} _.
Arguments hasFetchedRef {D} _.

Definition initial_state {D} : PageState D :=
  {| errorData := None; error := None; loading := true;
     hasFetchedRef := false |}.

(** One run of the effect; [errorIdNum] is [None] for [NaN].  The boolean
    tells whether [fetchData()] was started. *)
Definition effect {D} (errorIdNum : option Z) (st : PageState D)
  : PageState D * bool :=
  match errorIdNum with
  | None =>
      ({| errorData := errorData st; error := Some "Invalid error ID";
          loading := false; hasFetchedRef := hasFetchedRef st |}, false)
  | Some _ =>
      if hasFetchedRef st then (st, false)
      else ({| errorData := errorData st; error := error st;
               loading := loading st; hasFetchedRef := true |}, true)
  end.

(** The end of [fetchData], when [api.getErrorEventWithAnalysis] has
    settled as [r]: the [try], the [catch] and the [finally]. *)
Definition fetchData_settled {D} (r : ApiResult D) (st : PageState D)
  : PageState D :=
  match r with
  | Resolved data =>
      {| errorData := Some (LoadedData data); error := error st;
         loading := false; hasFetchedRef := hasFetchedRef st |}
  | ResolvedEmpty =>
      {| errorData := Some LoadedEmptyObject; error := error st;
         loading := false; hasFetchedRef := hasFetchedRef st |}
  | Rejected e =>
      {| errorData := errorData st; error := Some (message e);
         loading := false; hasFetchedRef := hasFetchedRef st |}
  end.

(** What the component returns.  On the empty object, [event] is
    [undefined] and reading [event.timestamp] throws. *)
Inductive View (D : Type) : Type :=
  | Skeleton
  | ErrorBox (text : string)
  | Details (d : D)
  | RenderThrows.
Arguments Skeleton {D}.
Arguments ErrorBox {D} text.
Arguments Details {D} d.
Arguments RenderThrows {D}.

Definition render {D} (st : PageState D) : View D :=
  if loading st then Skeleton
  else
    match truthy_string (error st), errorData st with
    | true, _ => ErrorBox (default EmptyString (error st))
    | false, None => ErrorBox "Error not found"
    | false, Some (LoadedData d) => Details d
    | false, Some LoadedEmptyObject => RenderThrows
    end.

(** [!isNaN(errorIdNum)] *)
Definition is_number (errorIdNum : option Z) : bool :=
  match errorIdNum with Some _ => true | None => false end.

(** The effect run once for each element of [ids], in order; the number of
    times [fetchData()] was started. *)
Fixpoint run_effects {D} (ids : list (option Z)) (st : PageState D)
  : PageState D * nat :=
  match ids with
  | [] => (st, O)
  | i :: rest =>
      let '(st1, started) := effect i st in
      let '(st2, n) := run_effects rest st1 in
      (st2, ((if started then 1 else 0) + n)%nat)
  end.

(** *** The badge next to "AI Analysis" *)



End DetailPage.

(** ** The analysis between backend and dashboard *)

Module ReadSurface.
Import Json.



End ReadSurface.

(** ** Route protection: the Next.js middleware *)

Module AuthMiddleware.
Import JsString.

Inductive RouteDecision : Type :=
  | PassThrough                                        (* [NextResponse.next()] *)
  | RedirectTo (path : string) (callbackUrl : option string).

(** The handler under [auth(...)]: [pathname] is [req.nextUrl.pathname],
    [isLoggedIn] is [!!req.auth]. *)
Definition middleware (pathname : string) (isLoggedIn : bool)
  : RouteDecision :=
  if String.eqb pathname "/login" || startsWith pathname "/api/auth" then
    if isLoggedIn && String.eqb pathname "/login"
    then RedirectTo "/projects" None
    else PassThrough
  else if negb isLoggedIn then RedirectTo "/login" (Some pathname)
  else PassThrough.

(** [favicon.ico] as a pattern: the dot stands for any one character. *)
Definition favicon_ico (s : string) : bool :=
  startsWith s "favicon"
  && match Regex.drop 7 s with
     | String c t => negb (line_terminator c) && startsWith t "ico"
     | EmptyString => false
     end.

(** The alternatives under [(?!...)] of the matcher, tried where the
    look-ahead stands: [_next/static], [_next/image], [favicon.ico] and
    [.*\.svg$]. *)
Definition lookahead (rest : string) : bool :=
  startsWith rest "_next/static"
  || startsWith rest "_next/image"
  || favicon_ico rest
  || dot_star_then (String.eqb ".svg") rest.

(** [config.matcher]: one pattern, a slash followed by a group that holds
    the look-ahead [(?!_next/static|_next/image|favicon.ico|.*\.svg$)] and
    then [.*].  It is matched against the whole path: a slash, not followed
    by what the look-ahead excludes, then any characters up to the end. *)
Definition matcher (pathname : string) : bool :=
  match pathname with
  | String "/" rest =>
      negb (lookahead rest) && dot_star_then (String.eqb "") rest
  | _ => false
  end.

(** What becomes of a request: on a path that the matcher does not match
    the handler is not run and the request goes on as it is. *)
Inductive Routed : Type :=
  | NotRun
  | Ran (d : RouteDecision).

(** The module as Next.js applies it: [config.matcher] first, then the
    handler. *)
Definition route (pathname : string) (isLoggedIn : bool) : Routed :=
  if matcher pathname then Ran (middleware pathname isLoggedIn) else NotRun.

(** The request reaches the page or file it asked for. *)
Definition gets_through (r : Routed) : bool :=
  match r with
  | NotRun | Ran PassThrough => true
  | Ran (RedirectTo _ _) => false
  end.

End AuthMiddleware.

(** ** [UserSync]: the effect of [frontend/components/UserSync.tsx] *)

Module UserSync.
Import Frontend JsString Api.

(** [session.user], as far as the component reads it. *)
Record SessionUser : Type := {
  su_id : option string;
  su_username : option string;
  su_name : option string;
  su_email : option string;
  su_image : option string;
}.

(** How the request for [/api/auth/session] ends: it fails (or its body
    does not parse), or it yields a session with or without a user. *)
Inductive SessionOutcome : Type :=
  | SessionFails
  | SessionIs (user : option SessionUser).

Record UserSyncRequest : Type := {
  r_github_id : string;
  r_username : string;
  r_email : option string;
  r_name : option string;
  r_avatar_url : option string;
}.

Inductive SyncEffect : Type :=
  | FetchSession
  | CallSyncUser (userData : UserSyncRequest) (call : FetchCall)
  | DispatchEvent (event : string).

Record SyncRun : Type := {
  sync_effects : list SyncEffect;
  sync_window : option Storage;
  synced : bool;
}.

(** [x ? String(x).trim() : null] *)
Definition trimmed_or_null (trim : string -> string) (x : option string)
  : option string :=
  if truthy_string x then Some (trim (default EmptyString x)) else None.

(** [session.user.username || session.user.name || 'unknown'] *)
Definition username_of (u : SessionUser) : string :=
  if truthy_string (su_username u) then default EmptyString (su_username u)
  else if truthy_string (su_name u) then default EmptyString (su_name u)
  else "unknown".

(** One run of the effect, with everything it sets off, for a session
    request that ends as [session] and a sync request that settles as
    [sync].  [trim] is [String.prototype.trim], [stringify] is
    [JSON.stringify]; [synced0] is the state the effect closes over. *)
Definition effect (base_url : string) (trim : string -> string)
    (stringify : UserSyncRequest -> string)
    (window : option Storage) (synced0 : bool)
    (session : SessionOutcome) (sync : FetchOutcome User) : SyncRun :=
  if truthy_string (getApiToken window) then
    {| sync_effects := []; sync_window := window; synced := true |}
  else if synced0 then
    {| sync_effects := []; sync_window := window; synced := synced0 |}
  else
    match session with
    | SessionFails =>
        {| sync_effects := [FetchSession]; sync_window := window;
           synced := true |}
    | SessionIs None =>
        {| sync_effects := [FetchSession]; sync_window := window;
           synced := true |}
    | SessionIs (Some user) =>
        let githubId := su_id user in
        let username := username_of user in
        if negb (truthy_string githubId) then
          {| sync_effects := [FetchSession]; sync_window := window;
             synced := true |}
        else if String.eqb username "" || String.eqb username "unknown" then
          {| sync_effects := [FetchSession]; sync_window := window;
             synced := true |}
        else
          let userData :=
            {| r_github_id := trim (default EmptyString githubId);
               r_username := trim username;
               r_email := trimmed_or_null trim (su_email user);
               r_name := trimmed_or_null trim (su_name user);
               r_avatar_url := trimmed_or_null trim (su_image user) |} in
          let '(call, window', r) :=
            syncUser base_url window (stringify userData) sync in
          match r with
          | Rejected _ =>
              {| sync_effects := [FetchSession; CallSyncUser userData call];
                 sync_window := window'; synced := false |}
          | Resolved _ | ResolvedEmpty =>
              {| sync_effects :=
                   [FetchSession; CallSyncUser userData call;
                    DispatchEvent "user-synced"];
                 sync_window := window'; synced := true |}
          end
    end.

End UserSync.

(** ** Fixtures *)

(** The heap, options, request and response of the SDK's own first test:
    a fresh [new Error('Test error')] at reference 1. *)
Definition test_heap : JS.Heap :=
  {[ 1%positive := {[ JS.KStr "message" := JS.JStr "Test error" ]} ]}.
Definition test_options : Sdk.ErrorIngestionOptions :=
  {| Sdk.apiUrl := "https://api.example.com"; Sdk.projectKey := "test-project";
     Sdk.timeout := Some 5000 |}.
Definition test_request : Sdk.Request :=
  {| Sdk.req_method := "GET"; Sdk.req_path := "/users/123";
     Sdk.req_originalUrl := Some "/users/123" |}.
Definition test_request_with_query : Sdk.Request :=
  {| Sdk.req_method := "GET"; Sdk.req_path := "/users/123";
     Sdk.req_originalUrl := Some "/users/123?page=1&limit=10" |}.
Definition test_response (code : Z) : Sdk.Response :=
  {| Sdk.res_statusCode := JS.JNum code |}.


(** The scenario of the specification: a 500 with one frame in [a.js], a
    project with a repository, and collaborators that answer as told. *)
Definition demo_event (code : option Z) : Pipeline.ErrorEvent :=
  {| Pipeline.id := 7; Pipeline.project := 1;
     Pipeline.timestamp := "2024-01-15T12:00:00Z";
     Pipeline.status_code := code; Pipeline.message := "DB timeout";
     Pipeline.stack := Some "at f (a.js:10)";
     Pipeline.http_method := "GET"; Pipeline.sanitized_path := "/api/test" |}.

Definition demo_repo : Pipeline.RepoCoordinate :=
  {| Pipeline.provider := "github"; Pipeline.owner := "acme";
     Pipeline.repo := "shop"; Pipeline.branch := "main" |}.

Definition demo_db (code : option Z) : Pipeline.DB :=
  {| Pipeline.events := {[ 7%nat := demo_event code ]};
     Pipeline.projects :=
       {[ 1%nat := {| Pipeline.repository := Some demo_repo |} ]};
     Pipeline.analyses := [] |}.

Definition demo_world (fetch : Pipeline.FetchResult) (engine_up : bool)
  : Pipeline.World :=
  {| Pipeline.parse_stack := fun _ =>
       [ {| Pipeline.file := "a.js"; Pipeline.line := 10;
            Pipeline.symbol := Some "f" |} ];
     Pipeline.in_repository := fun _ _ => true;
     Pipeline.max_frames := 5;
     Pipeline.fetchSnippet := fun _ _ => fetch;
     Pipeline.analyze := fun _ _ _ =>
       if engine_up
       then Some {| Pipeline.out_text := "The pool is exhausted.";
                    Pipeline.out_model := "gpt";
                    Pipeline.out_confidence := None |}
       else None;
     Pipeline.database_up := true;
     Pipeline.clock := "2024-01-15T12:00:05Z" |}.

Definition demo_worker (w : Pipeline.World) : Pipeline.Worker :=
  {| Pipeline.world := w; Pipeline.task := Pipeline.new_task 7;
     Pipeline.wstate := Pipeline.Idle |}.



Definition no_options : Api.RequestInit :=
  {| Api.method := None; Api.body := None; Api.headers := ∅ |}.

Definition demo_session_user : UserSync.SessionUser :=
  {| UserSync.su_id := Some "4711"; UserSync.su_username := Some "octocat";
     UserSync.su_name := Some "The Octocat"; UserSync.su_email := None;
     UserSync.su_image := None |}.

Definition demo_user : Api.User :=
  {| Api.id := 1; Api.github_id := "4711"; Api.username := "octocat";
     Api.email := None; Api.user_name := Some "The Octocat";
     Api.avatar_url := None; Api.api_token := "tok_123";
     Api.created_at := "2024-01-15T12:00:00Z" |}.

Definition demo_user_response : Api.HttpResponse Api.User :=
  {| Api.status := 200; Api.statusText := "OK";
     Api.content_type := Some "application/json";
     Api.json :=
       Api.Parsed demo_user
         (Json.JsonObject
            [ ("id", Json.json_integer 1);
              ("github_id", Json.JsonString "4711");
              ("username", Json.JsonString "octocat");
              ("email", Json.JsonNull);
              ("name", Json.JsonString "The Octocat");
              ("avatar_url", Json.JsonNull);
              ("api_token", Json.JsonString "tok_123");
              ("created_at", Json.JsonString "2024-01-15T12:00:00Z") ]) |}.

(** * Properties *)

(** ** Heap and monad laws *)

Section HeapFacts.
Import JS.

Lemma getProp_setProp_eq (h : Heap) r k v :
  getProp (setProp h r k v) r k = v.
Proof.
  unfold getProp, setProp. rewrite lookup_insert_eq.
  rewrite lookup_insert_eq. reflexivity.
Qed.

Lemma getProp_setProp_other_key (h : Heap) r k k' v :
  k ≠ k' -> getProp (setProp h r k v) r k' = getProp h r k'.
Proof.
  intros Hk. unfold getProp, setProp. rewrite lookup_insert_eq.
  rewrite lookup_insert_ne by assumption.
  destruct (h !! r); cbn; [reflexivity | by rewrite lookup_empty].
Qed.

Lemma getProp_setProp_other_ref (h : Heap) r r' k k' v :
  r ≠ r' -> getProp (setProp h r k v) r' k' = getProp h r' k'.
Proof.
  intros Hr. unfold getProp, setProp.
  rewrite lookup_insert_ne by assumption. reflexivity.
Qed.
End HeapFacts.

(** ** The capture middleware *)

(** Runs a computation of [Sdk.M] by unfolding the monad. *)
Ltac run_M :=
  unfold mbind, Sdk.M_bind, Sdk.bind, Sdk.try_catch, Sdk.promise_catch,
    Sdk.readProp, Sdk.writeProp, Sdk.emit, Sdk.ret, Sdk.throw;
  cbn -[Sdk.sanitizePath Sdk.before_query JS.strict_neq].

Section MiddlewareFacts.
Import JS Sdk.
Variable options : ErrorIngestionOptions.
Variable now : string.
Variable err : ref.
Variable req : Request.
Variable res : Response.

(** The monad, step by step. *)
Lemma readProp_bind {B} r key (k : JSVal -> M B) (h : Heap) :
  (readProp r key ≫= k) h = k (getProp h r key) h.
Proof.
  unfold mbind, M_bind, bind, readProp. cbn. by destruct (k _ h).
Qed.

Lemma writeProp_bind {B} r key v (k : unit -> M B) (h : Heap) :
  (writeProp r key v ≫= k) h = k tt (setProp h r key v).
Proof.
  unfold mbind, M_bind, bind, writeProp. cbn. by destruct (k tt _).
Qed.

Lemma emit_then {B} e (k : unit -> M B) (h : Heap) :
  (emit e ≫= k) h
  = {| effects := e :: effects (k tt h); heap := heap (k tt h);
       completion := completion (k tt h) |}.
Proof. reflexivity. Qed.

(** An error that carries the marker is only forwarded. *)
Lemma middleware_marked (h : Heap) :
  truthy (getProp h err INGESTED) = true ->
  errorIngestionMiddleware options now err req res h
  = {| effects := [CallNext err]; heap := h; completion := Normal false |}.
Proof.
  intros Hm. unfold errorIngestionMiddleware.
  rewrite readProp_bind. cbv beta. rewrite Hm. reflexivity.
Qed.

(** An error without the marker is marked, posted and forwarded. *)
Lemma middleware_unmarked (h : Heap) :
  truthy (getProp h err INGESTED) = false ->
  exists ev,
    errorIngestionMiddleware options now err req res h
    = {| effects :=
           [AxiosPost (apiUrl options +:+ "/api/v1/events")
              (projectKey options) ev (default 5000 (timeout options))
              "application/json";
            CallNext err];
         heap := setProp h err INGESTED (JBool true);
         completion := Normal true |}
    /\ status_code ev
       = (let sc := js_or (getProp h err (KStr "statusCode"))
                          (getProp h err (KStr "status")) in
          if truthy sc then sc
          else if truthy (res_statusCode res)
                  && strict_neq (res_statusCode res) (JNum 200)
               then res_statusCode res else JNum 500)
    /\ path ev
       = sanitizePath
           match req_originalUrl req with
           | Some u => if String.eqb u "" then req_path req
                       else before_query u
           | None => req_path req
           end
    /\ message ev = js_or (getProp h err (KStr "message")) (JStr "Unknown error")
    /\ stack ev = getProp h err (KStr "stack")
    /\ method ev = req_method req
    /\ timestamp ev = now.
Proof.
  intros Hm. unfold errorIngestionMiddleware.
  rewrite readProp_bind. cbv beta. rewrite Hm. cbv iota.
  rewrite writeProp_bind. rewrite !readProp_bind. cbv beta zeta.
  unfold sendErrorEvent_start. rewrite !emit_then.
  cbn [effects heap completion ret].
  rewrite !getProp_setProp_other_key by discriminate.
  eexists. split; [reflexivity|].
  cbn [status_code path message stack method timestamp].
  repeat split.
  - destruct (truthy (js_or _ _)); reflexivity.
  - destruct (req_originalUrl req) as [u|]; [|reflexivity].
    destruct (String.eqb u ""); reflexivity.
Qed.
End MiddlewareFacts.

Section SendFacts.
Import JS Sdk.

(** Whatever becomes of the request, the rest of [sendErrorEvent] returns
    normally, leaves the heap alone and at most warns. *)
Lemma sendErrorEvent_resume_run node_env o (h : Heap) :
  exists late,
    sendErrorEvent_resume node_env o h
    = {| effects := late; heap := h; completion := Normal tt |}
    /\ Forall (fun e => exists msg, e = ConsoleWarn msg) late
    /\ (node_env <> Some "development" -> late = []).
Proof.
  unfold sendErrorEvent_resume, await_post.
  destruct o; run_M.
  1: by exists []; split; [|split; [constructor|]].
  all: case_bool_decide; run_M; eexists; (split; [reflexivity|]);
    (split; [repeat constructor; eauto | intros; congruence]).
Qed.

Lemma settle_send_run node_env o (h : Heap) :
  settle_send node_env o h = sendErrorEvent_resume node_env o h.
Proof.
  destruct (sendErrorEvent_resume_run node_env o h) as (late & E & _).
  unfold settle_send, promise_catch, try_catch. rewrite E. reflexivity.
Qed.
End SendFacts.

Section RepeatedInvocation.
Import JS Sdk.


Lemma middleware_returns options now err req res (h : Heap) :
  exists sent,
    completion (errorIngestionMiddleware options now err req res h)
    = Normal sent.
Proof.
  destruct (truthy (getProp h err INGESTED)) eqn:Hm.
  - rewrite middleware_marked by assumption. eauto.
  - destruct (middleware_unmarked options now err req res h Hm)
      as (ev & E & _).
    rewrite E. eauto.
Qed.




End RepeatedInvocation.

(** *** The SDK's own tests, replayed *)

(** "should capture error and send to backend" *)
Example test_capture_and_send :
  Sdk.effects
    (Sdk.errorIngestionMiddleware test_options "2024-01-15T12:00:00.000Z"
       1%positive test_request (test_response 500) test_heap)
  = [ Sdk.AxiosPost "https://api.example.com/api/v1/events" "test-project"
        {| Sdk.message := JS.JStr "Test error"; Sdk.stack := JS.JUndefined;
           Sdk.method := "GET"; Sdk.path := "/users/:id";
           Sdk.status_code := JS.JNum 500;
           Sdk.timestamp := "2024-01-15T12:00:00.000Z" |}
        5000 "application/json";
      Sdk.CallNext 1%positive ].
Proof. vm_compute. reflexivity. Qed.

(** "should sanitize path with UUIDs" *)
Example test_sanitize_uuid :
  Sdk.sanitizePath "/users/550e8400-e29b-41d4-a716-446655440000" = "/users/:id".
Proof. vm_compute. reflexivity. Qed.

(** "should use error statusCode if available" *)
Example test_error_status_code :
  Sdk.status_code <$>
    Sdk.posted_events
      (Sdk.effects
         (Sdk.errorIngestionMiddleware test_options "2024-01-15T12:00:00.000Z"
            1%positive test_request (test_response 500)
            (JS.setProp test_heap 1%positive (JS.KStr "statusCode")
               (JS.JNum 404))))
  = [JS.JNum 404].
Proof. vm_compute. reflexivity. Qed.

(** "should not send duplicate errors" *)
Example test_no_duplicate :
  Sdk.effects
    (Sdk.errorIngestionMiddleware test_options "2024-01-15T12:00:00.000Z"
       1%positive test_request (test_response 500)
       (JS.setProp test_heap 1%positive Sdk.INGESTED (JS.JBool true)))
  = [Sdk.CallNext 1%positive].
Proof. vm_compute. reflexivity. Qed.

(** "should handle axios errors gracefully" *)
Example test_axios_error :
  let r := Sdk.handle_error test_options "2024-01-15T12:00:00.000Z"
             (Some "development") 1%positive test_request (test_response 500)
             (Sdk.PostNetworkError "Network error") test_heap in
  Sdk.completion r = Sdk.Normal tt
  /\ last (Sdk.effects r)
     = Some (Sdk.ConsoleWarn
               "[Error Ingestion SDK] Failed to send error event: Network error").
Proof. vm_compute. split; reflexivity. Qed.

(** *** The handler on any value *)


Section CaptureFacts.
Import JS Capture.
Variable options : Sdk.ErrorIngestionOptions.
Variable now : string.
Variable req : Sdk.Request.
Variable res : Sdk.Response.

(** The monad, step by step. *)
Lemma read_obj_bind {B} r key (k : JSVal -> M B) (s : Store) :
  (readProp (Obj r) key ≫= k) s = k (getProp (objects s) r key) s.
Proof.
  unfold mbind, M_bind, bind, readProp, ret. cbn. by destruct (k _ s).
Qed.

Lemma read_prim_bind {B} v key (k : JSVal -> M B) (s : Store) :
  (readProp (Prim v) key ≫= k) s
  = match v with
    | JUndefined | JNull => throwTypeError s
    | _ => k JUndefined s
    end.
Proof.
  unfold mbind, M_bind, bind, readProp, ret, throwTypeError.
  destruct v; cbn; try reflexivity; by destruct (k _ s).
Qed.

Lemma write_bind {B} target key v (k : unit -> M B) (s : Store) :
  (writeProp target key v ≫= k) s
  = match target with
    | Obj r =>
        if can_write s r key
        then k tt {| objects := setProp (objects s) r key v;
                     integrity := integrity s |}
        else throwTypeError s
    | Prim _ => throwTypeError s
    end.
Proof.
  unfold mbind, M_bind, bind, writeProp, throwTypeError.
  destruct target as [p|r]; [reflexivity|].
  destruct (can_write s r key); [|reflexivity].
  cbn. by destruct (k tt _).
Qed.

Lemma emit_bind {B} e (k : unit -> M B) (s : Store) :
  (emit e ≫= k) s
  = {| effects := e :: effects (k tt s); store := store (k tt s);
       completion := completion (k tt s) |}.
Proof. reflexivity. Qed.

(** An object that carries the marker is only forwarded, however far it is
    closed. *)
Lemma capture_marked (s : Store) r :
  truthy (getProp (objects s) r Sdk.INGESTED) = true ->
  errorIngestionMiddleware options now (Obj r) req res s
  = {| effects := [CallNext (Obj r)]; store := s; completion := Normal false |}.
Proof.
  intros Hm. unfold errorIngestionMiddleware.
  rewrite read_obj_bind. cbv beta. rewrite Hm. reflexivity.
Qed.

(** An object without the marker that takes the write is marked, posted
    and forwarded. *)
Lemma capture_unmarked (s : Store) r :
  truthy (getProp (objects s) r Sdk.INGESTED) = false ->
  can_write s r Sdk.INGESTED = true ->
  exists ev,
    errorIngestionMiddleware options now (Obj r) req res s
    = {| effects :=
           [AxiosPost (Sdk.apiUrl options +:+ "/api/v1/events")
              (Sdk.projectKey options) ev
              (default 5000 (Sdk.timeout options)) "application/json";
            CallNext (Obj r)];
         store := {| objects := setProp (objects s) r Sdk.INGESTED (JBool true);
                     integrity := integrity s |};
         completion := Normal true |}
    /\ Sdk.status_code ev
       = (let sc := js_or (getProp (objects s) r (KStr "statusCode"))
                          (getProp (objects s) r (KStr "status")) in
          if truthy sc then sc
          else if truthy (Sdk.res_statusCode res)
                  && strict_neq (Sdk.res_statusCode res) (JNum 200)
               then Sdk.res_statusCode res else JNum 500)
    /\ Sdk.path ev
       = Sdk.sanitizePath
           match Sdk.req_originalUrl req with
           | Some u => if String.eqb u "" then Sdk.req_path req
                       else Sdk.before_query u
           | None => Sdk.req_path req
           end
    /\ Sdk.message ev
       = js_or (getProp (objects s) r (KStr "message")) (JStr "Unknown error")
    /\ Sdk.stack ev = getProp (objects s) r (KStr "stack")
    /\ Sdk.method ev = Sdk.req_method req
    /\ Sdk.timestamp ev = now.
Proof.
  intros Hm Hw. unfold errorIngestionMiddleware.
  rewrite read_obj_bind. cbv beta. rewrite Hm. cbv iota.
  rewrite write_bind, Hw. rewrite !read_obj_bind. cbv beta zeta.
  unfold sendErrorEvent_start. rewrite !emit_bind.
  cbn [objects effects store completion ret].
  rewrite !getProp_setProp_other_key by discriminate.
  eexists. split; [reflexivity|].
  cbn [Sdk.status_code Sdk.path Sdk.message Sdk.stack Sdk.method
       Sdk.timestamp].
  repeat split.
  - destruct (truthy (js_or _ _)); reflexivity.
  - destruct (Sdk.req_originalUrl req) as [u|]; [|reflexivity].
    destruct (String.eqb u ""); reflexivity.
Qed.

(** On every other value the handler throws at its first statements:
    nothing is posted, [next] is not called, the store is as it was. *)
Lemma capture_throws (s : Store) err :
  takes_marker s err = false ->
  errorIngestionMiddleware options now err req res s
  = {| effects := []; store := s; completion := ThrowTypeError |}.
Proof.
  unfold takes_marker, errorIngestionMiddleware. destruct err as [v|r].
  - intros _. rewrite read_prim_bind.
    destruct v; try reflexivity; cbv beta iota delta [truthy];
      try (rewrite write_bind; reflexivity).
  - intros [Hm Hw]%orb_false_elim.
    rewrite read_obj_bind. cbv beta. rewrite Hm. cbv iota.
    by rewrite write_bind, Hw.
Qed.

(** On an object that is open to extension the handler is the one of
    [Sdk]. *)
Lemma capture_agrees_with_sdk (s : Store) r :
  integrity s r = Extensible ->
  errorIngestionMiddleware options now (Obj r) req res s
  = of_sdk_run s (Sdk.errorIngestionMiddleware options now r req res (objects s)).
Proof.
  intros Hi. destruct (truthy (getProp (objects s) r Sdk.INGESTED)) eqn:Hm.
  - rewrite capture_marked, middleware_marked by assumption.
    unfold of_sdk_run. cbn. by destruct s.
  - assert (Hw : can_write s r Sdk.INGESTED = true)
      by (unfold can_write; by rewrite Hi).
    destruct (capture_unmarked s r Hm Hw)
      as (ev & E & E1 & E2 & E3 & E4 & E5 & E6).
    destruct (middleware_unmarked options now r req res (objects s) Hm)
      as (ev' & F & F1 & F2 & F3 & F4 & F5 & F6).
    rewrite E, F. unfold of_sdk_run.
    cbn [Sdk.effects Sdk.heap Sdk.completion fmap list_fmap of_sdk_effect].
    destruct ev, ev'.
    cbn [Sdk.status_code Sdk.path Sdk.message Sdk.stack Sdk.method
         Sdk.timestamp] in *.
    congruence.
Qed.


End CaptureFacts.




(** Claim C5, as the code has it. The handler writes to the heap in one
    place only: it sets the [Symbol.for('error_ingested')] property of the
    error object itself to [true] (unless it is set already).  Every other
    property of the error, and every other object, reads afterwards as it
    read before, and the later turn in which the send settles writes
    nothing. *)
Theorem middleware_only_marks_the_error :
  forall options now node_env err req res (o : Sdk.PostOutcome) (h : JS.Heap),
    let h' := Sdk.heap (Sdk.errorIngestionMiddleware options now err req res h) in
    JS.getProp h' err Sdk.INGESTED
      = (if JS.truthy (JS.getProp h err Sdk.INGESTED)
         then JS.getProp h err Sdk.INGESTED else JS.JBool true)
    /\ (forall k, k <> Sdk.INGESTED -> JS.getProp h' err k = JS.getProp h err k)
    /\ (forall r k, r <> err -> JS.getProp h' r k = JS.getProp h r k)
    /\ Sdk.heap (Sdk.handle_error options now node_env err req res o h) = h'.
Proof.
  intros options now node_env err req res o h h'.
  assert (Hh' : h' = if JS.truthy (JS.getProp h err Sdk.INGESTED) then h
                     else JS.setProp h err Sdk.INGESTED (JS.JBool true)).
  { subst h'. destruct (JS.truthy (JS.getProp h err Sdk.INGESTED)) eqn:Hm.
    - rewrite middleware_marked by assumption. reflexivity.
    - destruct (middleware_unmarked options now err req res h Hm)
        as (ev & E & _).
      rewrite E. reflexivity. }
  repeat split.
  - rewrite Hh'. destruct (JS.truthy _); [reflexivity|].
    apply getProp_setProp_eq.
  - intros k Hk. rewrite Hh'. destruct (JS.truthy _); [reflexivity|].
    apply getProp_setProp_other_key. congruence.
  - intros r k Hr. rewrite Hh'. destruct (JS.truthy _); [reflexivity|].
    apply getProp_setProp_other_ref. congruence.
  - unfold Sdk.handle_error, mbind, Sdk.M_bind, Sdk.bind. fold h'.
    destruct (middleware_returns options now err req res h) as [sent Hs].
    rewrite Hs. destruct sent; [|reflexivity].
    rewrite settle_send_run.
    destruct (sendErrorEvent_resume_run node_env o h') as (late & E & _).
    fold h'. rewrite E. reflexivity.
Qed.

(** Claim C5, as stated, fails: capturing a fresh error leaves the error
    object with a property it did not have. *)
Lemma middleware_mutates_the_error :
  let h' := Sdk.heap (Sdk.errorIngestionMiddleware test_options
                        "2024-01-15T12:00:00.000Z" 1%positive test_request
                        (test_response 500) test_heap) in
  JS.getProp test_heap 1%positive Sdk.INGESTED = JS.JUndefined
  /\ JS.getProp h' 1%positive Sdk.INGESTED = JS.JBool true
  /\ h' <> test_heap.
Proof.
  cbv zeta. split; [vm_compute; reflexivity|].
  split; [vm_compute; reflexivity|].
  intros E.
  apply (f_equal (fun h => JS.getProp h 1%positive Sdk.INGESTED)) in E.
  vm_compute in E. discriminate.
Qed.


(** Claim C9. When neither [err.statusCode] nor [err.status] is truthy, the
    event that is posted carries the response's [statusCode] if that is
    truthy and not 200, and 500 otherwise; an unmarked error is posted
    exactly once.  On a response still at 200 the posted code is therefore
    500, which meets the trigger threshold of the pipeline. *)
Theorem unlabeled_error_status_code :
  forall options now err req res (h : JS.Heap),
    JS.truthy (JS.getProp h err (JS.KStr "statusCode")) = false ->
    JS.truthy (JS.getProp h err (JS.KStr "status")) = false ->
    let posted :=
      Sdk.posted_events
        (Sdk.effects (Sdk.errorIngestionMiddleware options now err req res h)) in
    Forall (fun ev =>
              Sdk.status_code ev
              = if JS.truthy (Sdk.res_statusCode res)
                   && JS.strict_neq (Sdk.res_statusCode res) (JS.JNum 200)
                then Sdk.res_statusCode res else JS.JNum 500) posted
    /\ (JS.truthy (JS.getProp h err Sdk.INGESTED) = false -> length posted = 1%nat)
    /\ (Sdk.res_statusCode res = JS.JNum 200 ->
        Forall (fun ev => Sdk.status_code ev = JS.JNum 500) posted)
    /\ (forall stored, Pipeline.status_code stored = Some 500 ->
                       Pipeline.decide stored = true).
Proof.
  intros options now err req res h H1 H2 posted.
  assert (Hposted :
    Forall (fun ev =>
              Sdk.status_code ev
              = if JS.truthy (Sdk.res_statusCode res)
                   && JS.strict_neq (Sdk.res_statusCode res) (JS.JNum 200)
                then Sdk.res_statusCode res else JS.JNum 500) posted
    /\ (JS.truthy (JS.getProp h err Sdk.INGESTED) = false -> length posted = 1%nat)).
  { subst posted.
    destruct (JS.truthy (JS.getProp h err Sdk.INGESTED)) eqn:Hm.
    - rewrite middleware_marked by assumption. cbn.
      split; [constructor | discriminate].
    - destruct (middleware_unmarked options now err req res h Hm)
        as (ev & E & Hsc & _).
      rewrite E. cbn. split; [|reflexivity].
      constructor; [|constructor].
      rewrite Hsc. cbv zeta. unfold JS.js_or. rewrite H1, H2. reflexivity. }
  destruct Hposted as [Hall Hlen].
  split; [exact Hall|]. split; [exact Hlen|]. split.
  - intros E. rewrite E in Hall. exact Hall.
  - intros stored Hs. unfold Pipeline.decide. rewrite Hs. reflexivity.
Qed.

Lemma unlabeled_error_status_code_witness :
  JS.truthy (JS.getProp test_heap 1%positive (JS.KStr "statusCode")) = false
  /\ JS.truthy (JS.getProp test_heap 1%positive (JS.KStr "status")) = false
  /\ Forall (fun ev => Sdk.status_code ev = JS.JNum 500)
       (Sdk.posted_events
          (Sdk.effects (Sdk.errorIngestionMiddleware test_options
             "2024-01-15T12:00:00.000Z" 1%positive test_request
             (test_response 200) test_heap))).
Proof.
  split; [reflexivity|]. split; [reflexivity|].
  refine (proj1 (proj2 (proj2
    (unlabeled_error_status_code test_options "2024-01-15T12:00:00.000Z"
       1%positive test_request (test_response 200) test_heap _ _))) _);
    reflexivity.
Defined.

(** ** Strings and the scanner *)

Section StringFacts.
Import Regex PathSpec.
#[local] Arguments String.append !s1 s2 : simpl nomatch.

Lemma append_assoc (a b c : string) : (a +:+ b) +:+ c = a +:+ (b +:+ c).
Proof. induction a as [|x a IH]; simpl; [reflexivity | f_equal; exact IH]. Qed.

Lemma append_empty_r (a : string) : a +:+ "" = a.
Proof. induction a as [|x a IH]; simpl; [reflexivity | f_equal; exact IH]. Qed.

Lemma no_char_append c (a b : string) :
  no_char c (a +:+ b) = no_char c a && no_char c b.
Proof.
  induction a as [|x a IH]; cbn; [reflexivity|].
  rewrite IH. apply andb_assoc.
Qed.

Lemma no_char_drop c n (s : string) :
  no_char c s = true -> no_char c (drop n s) = true.
Proof.
  revert s. induction n as [|n IH]; intros [|x s]; cbn; try done.
  intros [_ H]%andb_prop. by apply IH.
Qed.

Lemma drop_append n (s rest : string) :
  (n <= String.length s)%nat -> drop n (s +:+ rest) = drop n s +:+ rest.
Proof.
  revert s. induction n as [|n IH]; intros [|x s]; cbn; try done; try lia.
  intros. apply IH. lia.
Qed.

Lemma drop_length n (s : string) :
  String.length (drop n s) = (String.length s - n)%nat.
Proof. revert s. induction n; intros [|x s]; cbn; auto. Qed.

Lemma count_while_le p (s : string) :
  (count_while p s <= String.length s)%nat.
Proof. induction s as [|x s IH]; cbn; [lia|]. destruct (p x); lia. Qed.

Lemma match_exact_length p n (s : string) :
  match_exact p n s = true -> (n <= String.length s)%nat.
Proof.
  revert s. induction n as [|n IH]; intros [|x s]; cbn; try done; try lia.
  intros [_ H]%andb_prop. apply IH in H. lia.
Qed.

Lemma boundary_join segs : boundary (join_segments segs).
Proof. destruct segs; [by left | right; eauto]. Qed.

Section RejectsSlash.
Variable p : ascii -> bool.
Hypothesis p_slash : p "/"%char = false.

Lemma match_exact_boundary n (seg rest : string) :
  boundary rest ->
  match_exact p n (seg +:+ rest) = match_exact p n seg.
Proof.
  intros Hb. revert seg. induction n as [|n IH]; intros [|x seg]; cbn;
    try done.
  - destruct Hb as [-> | [t ->]]; [done|]. by rewrite p_slash.
  - by rewrite IH.
Qed.

Lemma count_while_boundary (seg rest : string) :
  boundary rest ->
  count_while p (seg +:+ rest) = count_while p seg.
Proof.
  intros Hb. induction seg as [|x seg IH]; cbn.
  - destruct Hb as [-> | [t ->]]; [done|]. cbn. by rewrite p_slash.
  - by rewrite IH.
Qed.
End RejectsSlash.

Lemma match_at_bound r (s : string) n :
  match_at r s = Some n -> (n <= String.length s)%nat.
Proof.
  revert s n. induction r as [|[a q] r IH]; intros s n; cbn.
  - intros [= <-]. lia.
  - destruct q as [|k|].
    + destruct s as [|x s]; [done|].
      destruct (atom_ok a x); [|done].
      destruct (match_at r s) as [m|] eqn:E; [|done].
      intros [= <-]. apply IH in E. cbn. lia.
    + destruct (match_exact (atom_ok a) k s) eqn:Ek; [|done].
      destruct (match_at r (drop k s)) as [m|] eqn:E; [|done].
      intros [= <-]. apply IH in E. apply match_exact_length in Ek.
      rewrite drop_length in E. lia.
    + pose proof (count_while_le (atom_ok a) s) as Hle.
      destruct (count_while (atom_ok a) s) as [|k] eqn:Ek; [done|].
      destruct (match_at r (drop (S k) s)) as [m|] eqn:E; [|done].
      intros [= <-]. apply IH in E.
      rewrite drop_length in E. lia.
Qed.

(** A match of a slash-free pattern inside a segment does not look past
    the segment. *)
Lemma match_at_boundary r (seg rest : string) :
  slash_free r -> boundary rest ->
  match_at r (seg +:+ rest) = match_at r seg.
Proof.
  intros Hr Hb. revert seg. induction Hr as [|[a q] r Ha Hr IH]; intros seg.
  - reflexivity.
  - cbn in Ha. cbn [match_at]. destruct q as [|k|].
    + destruct seg as [|x seg]; cbn.
      * destruct Hb as [-> | [t ->]]; [done|]. by rewrite Ha.
      * by rewrite IH.
    + rewrite match_exact_boundary by assumption.
      destruct (match_exact (atom_ok a) k seg) eqn:Ek; [|done].
      rewrite drop_append by (by eapply match_exact_length).
      by rewrite IH.
    + rewrite count_while_boundary by assumption.
      destruct (count_while (atom_ok a) seg) as [|k] eqn:Ek; [done|].
      rewrite drop_append by (rewrite <- Ek; apply count_while_le).
      by rewrite IH.
Qed.

Section Scanner.
Variable r' : regex.
Variable repl : string.
Local Abbreviation r := ((Lit "/"%char, Once) :: r').

(** Text without a slash is copied. *)
Lemma replace_copies (s rest : string) :
  no_char "/"%char s = true ->
  replace_from 0 r repl (s +:+ rest) = s +:+ replace_from 0 r repl rest.
Proof.
  induction s as [|x s IH]; [done|].
  cbn [no_char]. intros [Hx Hs]%andb_prop.
  cbn [String.append replace_from]. cbn [match_at atom_ok].
  destruct (bool_decide (x = "/"%char)); [done|].
  f_equal. by apply IH.
Qed.

(** The matched characters are passed over. *)
Lemma replace_skips k (s rest : string) :
  (k <= String.length s)%nat ->
  replace_from k r repl (s +:+ rest)
  = replace_from 0 r repl (drop k s +:+ rest).
Proof.
  revert s. induction k as [|k IH]; intros s Hk.
  - by destruct s.
  - destruct s as [|x s]; cbn in Hk; [lia|].
    cbn [String.append replace_from drop]. apply IH. lia.
Qed.

(** One segment, from its slash to its boundary. *)
Lemma replace_segment (seg rest : string) :
  slash_free r' -> no_char "/"%char seg = true -> boundary rest ->
  replace_from 0 r repl (String "/" (seg +:+ rest))
  = match match_at r' seg with
    | Some n => repl +:+ drop n seg +:+ replace_from 0 r repl rest
    | None => String "/" (seg +:+ replace_from 0 r repl rest)
    end.
Proof.
  intros Hr Hs Hb. cbn [replace_from]. cbn [match_at atom_ok].
  rewrite bool_decide_eq_true_2 by reflexivity.
  rewrite match_at_boundary by assumption.
  destruct (match_at r' seg) as [n|] eqn:E; cbn [fmap option_fmap option_map].
  - rewrite replace_skips by (by eapply match_at_bound).
    rewrite replace_copies by (by apply no_char_drop). reflexivity.
  - by rewrite replace_copies.
Qed.
End Scanner.

(** A whole path, segment by segment. *)
Lemma replace_path r' repl (pre : string) (segs : list string) :
  slash_free r' -> no_char "/"%char pre = true ->
  Forall (fun seg => no_char "/"%char seg = true) segs ->
  replace_all ((Lit "/"%char, Once) :: r') (String "/" repl)
    (pre +:+ join_segments segs)
  = pre +:+ join_segments
              (map (fun seg => match match_at r' seg with
                               | Some n => repl +:+ drop n seg
                               | None => seg
                               end) segs).
Proof.
  intros Hr Hpre Hsegs. unfold replace_all.
  rewrite replace_copies by assumption. f_equal.
  induction Hsegs as [|seg segs Hseg Hsegs IH]; [reflexivity|].
  cbn [join_segments map].
  rewrite replace_segment by auto using boundary_join.
  rewrite IH. destruct (match_at r' seg) as [n|]; [|reflexivity].
  cbn. by rewrite append_assoc.
Qed.

(** *** The two patterns of [sanitizePath] *)

Lemma uuid_tail_slash_free : slash_free (tl Sdk.uuid_re).
Proof. repeat constructor. Qed.

Lemma numeric_tail_slash_free : slash_free (tl Sdk.numeric_re).
Proof. repeat constructor. Qed.

Lemma drop_drop n m (s : string) : drop m (drop n s) = drop (n + m) s.
Proof.
  revert s. induction n as [|n IH]; intros s; [reflexivity|].
  destruct s as [|x s]; [by destruct m | apply IH].
Qed.

Local Ltac uuid_step :=
  cbn -[match_exact drop]; try (split; [reflexivity | intros ?; discriminate]).

(** The UUID pattern, less its slash, finds what [uuid_rest] finds. *)
Lemma uuid_tail_match (seg : string) :
  match_at (tl Sdk.uuid_re) seg
  = match uuid_rest seg with Some _ => Some 36%nat | None => None end
  /\ forall rest, uuid_rest seg = Some rest -> rest = drop 36 seg.
Proof.
  unfold uuid_rest, hex_run, dash. cbn [tl Sdk.uuid_re match_at].
  change (atom_ok (Class is_hex_ci)) with is_hex_ci.
  change (atom_ok (Lit "-"%char)) with (fun c => bool_decide (c = "-"%char)).
  cbn beta.
  destruct (match_exact is_hex_ci 8 seg); uuid_step.
  destruct (drop 8 seg) as [|c1 s1] eqn:D1; uuid_step.
  case_bool_decide; uuid_step.
  destruct (match_exact is_hex_ci 4 s1); uuid_step.
  destruct (drop 4 s1) as [|c2 s2] eqn:D2; uuid_step.
  case_bool_decide; uuid_step.
  destruct (match_exact is_hex_ci 4 s2); uuid_step.
  destruct (drop 4 s2) as [|c3 s3] eqn:D3; uuid_step.
  case_bool_decide; uuid_step.
  destruct (match_exact is_hex_ci 4 s3); uuid_step.
  destruct (drop 4 s3) as [|c4 s4] eqn:D4; uuid_step.
  case_bool_decide; uuid_step.
  destruct (match_exact is_hex_ci 12 s4); uuid_step.
  split; [reflexivity|]. intros rest [= <-].
  change (drop 12 s4 = drop 36 seg).
  assert (Hs1 : s1 = drop 9 seg).
  { change 9%nat with (8 + 1)%nat. rewrite <- drop_drop, D1. reflexivity. }
  assert (Hs2 : s2 = drop 14 seg).
  { change 14%nat with (9 + (4 + 1))%nat.
    rewrite <- drop_drop, <- Hs1, <- drop_drop, D2. reflexivity. }
  assert (Hs3 : s3 = drop 19 seg).
  { change 19%nat with (14 + (4 + 1))%nat.
    rewrite <- drop_drop, <- Hs2, <- drop_drop, D3. reflexivity. }
  assert (Hs4 : s4 = drop 24 seg).
  { change 24%nat with (19 + (4 + 1))%nat.
    rewrite <- drop_drop, <- Hs3, <- drop_drop, D4. reflexivity. }
  rewrite Hs4, drop_drop. reflexivity.
Qed.

Lemma numeric_tail_match (seg : string) :
  match_at (tl Sdk.numeric_re) seg
  = match count_while is_digit seg with
    | O => None
    | S _ as k => Some k
    end.
Proof.
  cbn [tl Sdk.numeric_re match_at].
  change (atom_ok (Class is_digit)) with is_digit.
  destruct (count_while is_digit seg); [reflexivity|].
  cbn. by rewrite Nat.add_0_r.
Qed.

(** The sanitizer on a path given by its segments. *)
Lemma sanitizePath_by_segment (pre : string) (segs : list string) :
  no_char "/"%char pre = true ->
  Forall (fun seg => no_char "/"%char seg = true) segs ->
  Sdk.sanitizePath (pre +:+ join_segments segs)
  = pre +:+ join_segments (map sanitize_segment segs).
Proof.
  intros Hpre Hsegs. unfold Sdk.sanitizePath.
  change Sdk.uuid_re with ((Lit "/"%char, Once) :: tl Sdk.uuid_re).
  change Sdk.numeric_re with ((Lit "/"%char, Once) :: tl Sdk.numeric_re).
  rewrite replace_path by auto using uuid_tail_slash_free.
  rewrite replace_path; [| apply numeric_tail_slash_free | assumption |].
  - f_equal. f_equal. rewrite map_map. apply map_ext. intros seg.
    unfold sanitize_segment.
    destruct (uuid_tail_match seg) as [-> Hrest].
    destruct (uuid_rest seg) as [rest|].
    + rewrite <- (Hrest rest eq_refl). reflexivity.
    + rewrite numeric_tail_match.
      destruct (count_while is_digit seg); reflexivity.
  - apply Forall_map. eapply Forall_impl; [exact Hsegs|].
    intros seg Hseg. cbn beta.
    destruct (match_at (tl Sdk.uuid_re) seg); [|assumption].
    rewrite no_char_append. cbn. by apply no_char_drop.
Qed.

(** *** The query string *)

Lemma before_query_no_query (s : string) :
  no_char "?"%char (Sdk.before_query s) = true.
Proof.
  induction s as [|x s IH]; cbn; [reflexivity|].
  case_bool_decide; cbn; [reflexivity|].
  rewrite bool_decide_eq_false_2 by assumption. exact IH.
Qed.

Lemma before_query_cut (p q : string) :
  no_char "?"%char p = true -> Sdk.before_query (p +:+ String "?" q) = p.
Proof.
  induction p as [|x p IH]; cbn; [reflexivity|].
  intros [Hx Hp]%andb_prop. apply negb_true_iff in Hx.
  rewrite Hx. f_equal. by apply IH.
Qed.

(** A replacement brings in no character that neither the text nor the
    replacement has. *)
Lemma replace_from_no_char c k r repl (s : string) :
  no_char c repl = true -> no_char c s = true ->
  no_char c (replace_from k r repl s) = true.
Proof.
  intros Hrepl. revert k. induction s as [|x s IH]; intros k Hs.
  - cbn. destruct k; [|reflexivity]. by destruct (match_at r "").
  - cbn in Hs. apply andb_prop in Hs as [Hx Hs].
    cbn [replace_from]. destruct k as [|k]; [|by apply IH].
    destruct (match_at r (String x s)) as [[|n]|].
    + rewrite no_char_append, Hrepl. cbn. rewrite Hx. by apply IH.
    + rewrite no_char_append, Hrepl. by apply IH.
    + cbn. rewrite Hx. by apply IH.
Qed.

Lemma sanitizePath_no_query (s : string) :
  no_char "?"%char s = true -> no_char "?"%char (Sdk.sanitizePath s) = true.
Proof.
  intros Hs. unfold Sdk.sanitizePath, replace_all.
  repeat apply replace_from_no_char; done.
Qed.

(** *** Segments *)

Lemma split_path_spec (s : string) :
  s = (split_path s).1 +:+ join_segments (split_path s).2
  /\ no_char "/"%char (split_path s).1 = true
  /\ Forall (fun seg => no_char "/"%char seg = true) (split_path s).2.
Proof.
  induction s as [|x s (IH1 & IH2 & IH3)]; cbn; [by repeat constructor|].
  destruct (split_path s) as [pre segs]. cbn in *.
  case_bool_decide as Hx; cbn.
  - subst x. split; [by f_equal|]. split; [reflexivity|]. by constructor.
  - split; [by f_equal|]. split; [|assumption].
    rewrite bool_decide_eq_false_2 by assumption. exact IH2.
Qed.

Lemma uuid_shaped_segment (seg : string) :
  uuid_shaped seg = true -> sanitize_segment seg = ":id".
Proof.
  unfold uuid_shaped, sanitize_segment. intros H%bool_decide_eq_true.
  by rewrite H.
Qed.

Lemma count_while_all_drop p n (s : string) :
  count_while p s = String.length s ->
  count_while p (drop n s) = String.length (drop n s).
Proof.
  revert s. induction n as [|n IH]; intros [|x s]; cbn; try done.
  destruct (p x); [|done]. intros [= H]. by apply IH.
Qed.

Lemma dash_after_digits (s : string) :
  count_while is_digit s = String.length s -> dash s = None.
Proof.
  destruct s as [|x s]; cbn; [done|].
  destruct (is_digit x) eqn:Hx; [|done]. intros _.
  case_bool_decide; [|done]. by subst x.
Qed.

Lemma drop_all (s : string) : drop (String.length s) s = "".
Proof. induction s; cbn; auto. Qed.

Lemma all_digits_segment (seg : string) :
  all_digits seg = true -> sanitize_segment seg = ":id".
Proof.
  unfold all_digits, sanitize_segment.
  intros [Hall Hne]%andb_prop. apply Nat.eqb_eq in Hall.
  assert (uuid_rest seg = None) as ->.
  { unfold uuid_rest, hex_run.
    destruct (match_exact is_hex_ci 8 seg); [|reflexivity].
    cbn -[drop match_exact].
    by rewrite dash_after_digits by by apply count_while_all_drop. }
  rewrite Hall. destruct seg as [|x seg]; [done|].
  cbn [String.length drop]. by rewrite drop_all.
Qed.
End StringFacts.

(** Claim C8. For a first capture of a request whose [originalUrl] is set,
    the posted path is [sanitizePath] of the URL up to its first [?], and
    holds no [?].  Taken segment by segment (the text between slashes), the
    sanitizer replaces a UUID (8-4-4-4-12 hexadecimal digits, either case) at
    the start of a segment by [:id], and only where there is none a run of
    digits at the start of a segment by [:id]; everything else is kept.  So a
    UUID-shaped segment and an all-digit segment both become [:id], and the
    two examples come out as stated.  (Without [originalUrl] the handler
    sanitizes [req.path] as it is.) *)
Theorem captured_path_is_sanitized :
  forall options now err req res (h : JS.Heap) (url : string),
    Sdk.req_originalUrl req = Some url ->
    url <> EmptyString ->
    JS.truthy (JS.getProp h err Sdk.INGESTED) = false ->
    exists ev,
      Sdk.posted_events
        (Sdk.effects (Sdk.errorIngestionMiddleware options now err req res h))
      = [ev]
      /\ Sdk.path ev = Sdk.sanitizePath (Sdk.before_query url)
      /\ PathSpec.no_char "?"%char (Sdk.path ev) = true
      /\ Sdk.path ev
         = (PathSpec.split_path (Sdk.before_query url)).1
           +:+ PathSpec.join_segments
                 (map PathSpec.sanitize_segment
                    (PathSpec.split_path (Sdk.before_query url)).2)
      /\ (forall seg, PathSpec.uuid_shaped seg = true ->
                      PathSpec.sanitize_segment seg = ":id")
      /\ (forall seg, PathSpec.all_digits seg = true ->
                      PathSpec.sanitize_segment seg = ":id")
      /\ (forall p q, PathSpec.no_char "?"%char p = true ->
                      Sdk.before_query (p +:+ String "?" q) = p)
      /\ Sdk.sanitizePath "/users/123/orders/456" = "/users/:id/orders/:id"
      /\ Sdk.sanitizePath (Sdk.before_query "/users/123?page=1") = "/users/:id".
Proof.
  intros options now err req res h url Hurl Hne Hm.
  destruct (middleware_unmarked options now err req res h Hm)
    as (ev & E & _ & Hpath & _).
  exists ev. rewrite E. split; [reflexivity|].
  rewrite Hurl in Hpath.
  apply String.eqb_neq in Hne. rewrite Hne in Hpath.
  split; [exact Hpath|].
  split.
  { rewrite Hpath. apply sanitizePath_no_query, before_query_no_query. }
  split.
  { rewrite Hpath.
    destruct (split_path_spec (Sdk.before_query url)) as (Hs & Hpre & Hsegs).
    rewrite Hs at 1. by apply sanitizePath_by_segment. }
  split; [exact uuid_shaped_segment|].
  split; [exact all_digits_segment|].
  split; [exact before_query_cut|].
  split; vm_compute; reflexivity.
Qed.

Lemma captured_path_is_sanitized_witness :
  exists ev,
    Sdk.posted_events
      (Sdk.effects (Sdk.errorIngestionMiddleware test_options
         "2024-01-15T12:00:00.000Z" 1%positive
         test_request_with_query (test_response 500) test_heap))
    = [ev]
    /\ Sdk.path ev = "/users/:id".
Proof.
  destruct (captured_path_is_sanitized test_options "2024-01-15T12:00:00.000Z"
              1%positive test_request_with_query (test_response 500) test_heap
              "/users/123?page=1&limit=10" eq_refl
              ltac:(discriminate) eq_refl)
    as (ev & Hev & Hpath & _).
  exists ev. split; [exact Hev|]. rewrite Hpath. vm_compute. reflexivity.
Defined.

(** ** The dashboard's token wait *)

Section TokenFacts.
Import Frontend.

Lemma page_key_is_not_api_key : ErrorDetailPage_token_key <> API_TOKEN_KEY.
Proof. discriminate. Qed.

(** No write of the API client reaches the key the page reads. *)
Lemma apply_op_keeps_page_key (ls : Storage) op :
  exists ls',
    apply_op (Some ls) op = Some ls'
    /\ getItem ls' ErrorDetailPage_token_key
       = getItem ls ErrorDetailPage_token_key.
Proof.
  destruct op as [t|]; cbn; eexists; (split; [reflexivity|]);
    unfold getItem, setItem, removeItem.
  - apply lookup_insert_ne. discriminate.
  - apply lookup_delete_ne. discriminate.
Qed.

Lemma apply_ops_keeps_page_key ops (ls : Storage) :
  exists ls',
    apply_ops ops (Some ls) = Some ls'
    /\ getItem ls' ErrorDetailPage_token_key
       = getItem ls ErrorDetailPage_token_key.
Proof.
  revert ls. induction ops as [|op ops IH]; intros ls; cbn.
  - eauto.
  - destruct (apply_op_keeps_page_key ls op) as (ls1 & -> & H1).
    destruct (IH ls1) as (ls' & E & H2).
    exists ls'. split; [exact E | exact (eq_trans H2 H1)].
Qed.
End TokenFacts.

(** Claim C10. The error-detail page looks for the token under
    ['stackwise_api_token']; the API client writes (and clears) it under
    ['debug_ai_api_token'].  So in a browser whose storage the API client
    alone has written to, right after [setApiToken token] the token is there
    under the client's key, the page's look-up finds nothing, and the page
    arms the 2000 ms timer and the ['user-synced'] listener instead of
    resolving at once. *)
Theorem page_wait_misses_stored_token :
  forall (ops : list Frontend.ApiOp) (token : string),
    Frontend.ErrorDetailPage_token_key = "stackwise_api_token"
    /\ Frontend.API_TOKEN_KEY = "debug_ai_api_token"
    /\ exists ls,
         Frontend.setApiToken token (Frontend.apply_ops ops (Some ∅)) = Some ls
         /\ Frontend.getApiToken (Some ls) = Some token
         /\ Frontend.getItem ls Frontend.ErrorDetailPage_token_key = None
         /\ Frontend.ErrorDetailPage_wait ls
            = Frontend.WaitsFor "user-synced" 2000.
Proof.
  intros ops token. split; [reflexivity|]. split; [reflexivity|].
  destruct (apply_ops_keeps_page_key ops ∅) as (ls0 & E0 & H0).
  destruct (apply_op_keeps_page_key ls0 (Frontend.OpSetApiToken token))
    as (ls & E & H).
  cbn in E. exists ls. rewrite E0. split; [exact E|].
  assert (Hnone : Frontend.getItem ls Frontend.ErrorDetailPage_token_key = None).
  { rewrite H, H0. apply lookup_empty. }
  split.
  { injection E as <-. cbn. unfold Frontend.getItem, Frontend.setItem.
    apply lookup_insert_eq. }
  split; [exact Hnone|].
  unfold Frontend.ErrorDetailPage_wait, Frontend.wait_for_token.
  rewrite Hnone. reflexivity.
Qed.

(** ** The analysis pipeline *)

Section AnalysesFacts.
Import Pipeline.

Lemma has_analysis_elem (db : DB) eid :
  has_analysis db eid = true <-> eid ∈ map error_event_id (analyses db).
Proof.
  unfold has_analysis. rewrite existsb_exists, list_elem_of_In, in_map_iff.
  split.
  - intros (a & Hin & E%Nat.eqb_eq). eauto.
  - intros (a & E & Hin). exists a. split; [assumption|].
    by apply Nat.eqb_eq.
Qed.

Lemma count_for_pos (db : DB) eid :
  has_analysis db eid = true <-> (1 <= count_for db eid)%nat.
Proof.
  unfold has_analysis, count_for.
  induction (analyses db) as [|a l IH].
  - cbn. split; [discriminate | lia].
  - rewrite filter_cons. cbn [existsb].
    destruct (base.decide (error_event_id a = eid)) as [E|E].
    + apply Nat.eqb_eq in E. rewrite E. cbn. split; [lia | reflexivity].
    + apply Nat.eqb_neq in E. rewrite E. cbn. exact IH.
Qed.

Lemma count_for_unique (db : DB) eid :
  unique_analyses db -> (count_for db eid <= 1)%nat.
Proof.
  unfold unique_analyses, count_for.
  induction (analyses db) as [|a l IH]; [cbn; lia|].
  cbn [map]. intros [Hnotin Hnd]%NoDup_cons. rewrite filter_cons.
  destruct (base.decide (error_event_id a = eid)) as [E|E]; [|by apply IH].
  cbn [length]. subst eid.
  assert (filter (fun b => error_event_id b = error_event_id a) l = [])
    as ->; [|cbn; lia].
  clear -Hnotin. induction l as [|b l IHl]; [reflexivity|].
  cbn [map] in Hnotin. apply not_elem_of_cons in Hnotin as [Hb Hl].
  rewrite filter_cons_False by congruence. by apply IHl.
Qed.

(** The insert of step 6 keeps the constraint, the events and the
    projects, and never removes an analysis. *)
Lemma persist_spec w (db : DB) a db' o :
  persist w db a = (db', o) ->
  events db' = events db /\ projects db' = projects db
  /\ (unique_analyses db -> unique_analyses db')
  /\ (forall eid, has_analysis db eid = true -> has_analysis db' eid = true)
  /\ (o <> Failed -> has_analysis db' (error_event_id a) = true)
  /\ (forall eid, eid <> error_event_id a -> count_for db' eid = count_for db eid)
  /\ (o = AckSuccess <-> analyses db' = a :: analyses db)
  /\ (o <> AckSuccess -> db' = db).
Proof.
  unfold persist. destruct (database_up w); cbn.
  - destruct (has_analysis db (error_event_id a)) eqn:Hh; intros [= <- <-].
    + repeat split; try done.
      intros E. apply (f_equal length) in E. cbn in E. lia.
    + cbn. repeat split; try done.
      * unfold unique_analyses. cbn. intros Hnd. apply NoDup_cons.
        split; [|assumption]. intros Hin%has_analysis_elem. congruence.
      * intros eid H. unfold has_analysis in *. cbn. rewrite H.
        apply orb_true_r.
      * intros _. unfold has_analysis. cbn. by rewrite Nat.eqb_refl.
      * intros eid Hne. unfold count_for. cbn [analyses].
        by destruct (base.decide (error_event_id a = eid)); [congruence|].
  - intros [= <- <-]. repeat split; try done.
    intros E. apply (f_equal length) in E. cbn in E. lia.
Qed.

(** What steps 1 to 5 hand to step 6 is a record for the task's event. *)
Lemma prepare_ready w (db : DB) t a :
  prepare w db t = PrepReady a -> error_event_id a = task_event t.
Proof.
  unfold prepare.
  destruct (events db !! task_event t) as [ev|]; [|discriminate].
  destruct (has_analysis db (task_event t)); [discriminate|].
  destruct (status_code ev) as [c|]; [|discriminate].
  destruct (c <? 500); [discriminate|].
  destruct (analyze w _ _ _); [|discriminate].
  intros [= <-]. reflexivity.
Qed.

(** An event that has its analysis stops the workflow at step 1, in
    whatever world: neither the fetcher nor the engine is asked. *)
Lemma prepare_analysed w (db : DB) t ev :
  events db !! task_event t = Some ev ->
  has_analysis db (task_event t) = true ->
  prepare w db t = PrepNoop.
Proof. unfold prepare. by intros -> ->. Qed.

(** Below the threshold, or without a status code, nothing is prepared. *)
Lemma prepare_below_threshold w (db : DB) t ev :
  events db !! task_event t = Some ev -> decide ev = false ->
  prepare w db t = PrepNoop.
Proof.
  unfold prepare, decide. intros -> Hd.
  destruct (has_analysis db (task_event t)); [reflexivity|].
  destruct (status_code ev) as [c|]; [|reflexivity].
  apply Z.leb_gt in Hd. apply Z.ltb_lt in Hd. by rewrite Hd.
Qed.

(** With the event stored, at threshold and not yet analysed, and the
    engine answering, steps 1 to 5 produce a record. *)
Lemma prepare_at_threshold w (db : DB) t ev :
  events db !! task_event t = Some ev -> decide ev = true ->
  has_analysis db (task_event t) = false ->
  (forall m fs ss, is_Some (analyze w m fs ss)) ->
  exists a, prepare w db t = PrepReady a.
Proof.
  unfold prepare, decide. intros -> Hd -> Hup.
  destruct (status_code ev) as [c|]; [|discriminate].
  apply Z.leb_le in Hd.
  destruct (c <? 500) eqn:Hc; [apply Z.ltb_lt in Hc; lia|].
  match goal with |- context [analyze w ?m ?fs ?ss] =>
    destruct (Hup m fs ss) as [out ->] end.
  eauto.
Qed.

End AnalysesFacts.

Section Schedules.
Import Pipeline.

Lemma worker_step_spec (db : DB) wk db' wk' :
  worker_step db wk = (db', wk') ->
  world wk' = world wk /\ task wk' = task wk
  /\ events db' = events db /\ projects db' = projects db
  /\ (unique_analyses db -> unique_analyses db')
  /\ (forall eid, has_analysis db eid = true -> has_analysis db' eid = true).
Proof.
  unfold worker_step. destruct (wstate wk) as [|a|o].
  - intros [= <- <-]. cbn. auto 10.
  - destruct (persist (world wk) db a) as [db1 o] eqn:Ep.
    intros [= <- <-]. cbn.
    destruct (persist_spec _ _ _ _ _ Ep) as (? & ? & ? & ? & _). auto 10.
  - intros [= <- <-]. auto 10.
Qed.

(** The constraint survives every step of every pool. *)
Lemma pool_step_unique st i :
  unique_analyses st.1 -> unique_analyses (pool_step st i).1.
Proof.
  destruct st as [db pool]. unfold pool_step. cbn [fst snd].
  destruct (pool !! i) as [wk|]; [|done].
  destruct (worker_step db wk) as [db' wk'] eqn:E. cbn.
  by apply (worker_step_spec _ _ _ _ E).
Qed.

Lemma run_schedule_unique schedule st :
  unique_analyses st.1 -> unique_analyses (run_schedule schedule st).1.
Proof.
  revert st. induction schedule as [|i schedule IH]; intros st H; [done|].
  cbn. apply IH. by apply pool_step_unique.
Qed.

Lemma run_schedule_length schedule st :
  length (run_schedule schedule st).2 = length st.2.
Proof.
  revert st. induction schedule as [|i schedule IH]; intros st; [done|].
  cbn. rewrite IH. destruct st as [db pool]. unfold pool_step. cbn [fst snd].
  destruct (pool !! i) as [wk|]; [|done].
  destruct (worker_step db wk) as [db' wk']. cbn. apply length_insert.
Qed.

Section Duplicates.
Variable eid : nat.
Variable ev : ErrorEvent.
Variable stored : gmap nat ErrorEvent.
Hypothesis ev_stored : stored !! eid = Some ev.
Hypothesis ev_severe : decide ev = true.

Lemma on_track_mono (db db' : DB) wk :
  (has_analysis db eid = true -> has_analysis db' eid = true) ->
  on_track eid db wk -> on_track eid db' wk.
Proof. unfold on_track. destruct (wstate wk); auto. Qed.

Lemma worker_step_on_track (db : DB) wk db' wk' :
  events db = stored -> delivery_of eid wk -> on_track eid db wk ->
  worker_step db wk = (db', wk') ->
  delivery_of eid wk' /\ on_track eid db' wk'.
Proof.
  intros Hev (Ht & Hup & Hdb) Hok. unfold worker_step.
  destruct (wstate wk) as [|a|o] eqn:Ews.
  - intros [= <- <-]. split; [done|]. unfold on_track. cbn.
    destruct (has_analysis db eid) eqn:Hh.
    + unfold prepare. rewrite Hev, Ht, ev_stored, Hh. reflexivity.
    + destruct (prepare_at_threshold (world wk) db (task wk) ev)
        as [a Ea]; rewrite ?Hev, ?Ht; try done.
      rewrite Ea. apply prepare_ready in Ea. congruence.
  - destruct (persist (world wk) db a) as [db1 o] eqn:Ep.
    intros [= <- <-]. split; [done|]. unfold on_track in *. cbn.
    rewrite Ews in Hok.
    destruct (persist_spec _ _ _ _ _ Ep) as (_ & _ & _ & _ & Hdone & _).
    rewrite <- Hok. apply Hdone. intros ->. unfold persist in Ep. rewrite Hdb in Ep.
    cbn in Ep. by destruct (has_analysis db (error_event_id a)).
  - intros [= <- <-]. split; [done|]. exact Hok.
Qed.

(** Any schedule keeps every worker of the pool on track. *)
Lemma run_schedule_on_track schedule (st : DB * list Worker) :
  events st.1 = stored -> unique_analyses st.1 ->
  Forall (fun wk => delivery_of eid wk /\ on_track eid st.1 wk) st.2 ->
  let final := run_schedule schedule st in
  events final.1 = stored /\ unique_analyses final.1
  /\ Forall (fun wk => delivery_of eid wk /\ on_track eid final.1 wk)
       final.2.
Proof.
  revert st. induction schedule as [|i schedule IH]; intros st Hev Hu Hp.
  - done.
  - cbn. apply IH; destruct st as [db pool]; unfold pool_step;
      cbn [fst snd] in *;
      destruct (pool !! i) as [wk|] eqn:Ei; try done;
      destruct (worker_step db wk) as [db' wk'] eqn:E; cbn [fst snd];
      destruct (worker_step_spec _ _ _ _ E)
        as (_ & _ & Hev' & _ & Hu' & Hmono).
    + congruence.
    + auto.
    + assert (Hwk : delivery_of eid wk /\ on_track eid db wk).
      { eapply Forall_forall in Hp; [exact Hp|].
        by eapply list_elem_of_lookup_2. }
      apply Forall_insert.
      * eapply Forall_impl; [exact Hp|]. intros wk0 [? ?].
        split; [done|]. eapply on_track_mono; [|eassumption]. auto.
      * eapply worker_step_on_track; [exact Hev| | |exact E]; tauto.
Qed.
End Duplicates.

Section BelowThreshold.
Variable eid : nat.
Variable ev : ErrorEvent.
Variable stored : gmap nat ErrorEvent.
Hypothesis ev_stored : stored !! eid = Some ev.
Hypothesis ev_mild : decide ev = false.

Lemma worker_step_below (db : DB) wk db' wk' :
  events db = stored -> holds_nothing_for eid wk ->
  worker_step db wk = (db', wk') ->
  holds_nothing_for eid wk' /\ count_for db' eid = count_for db eid.
Proof.
  intros Hev Hok. unfold worker_step, holds_nothing_for in *.
  destruct (wstate wk) as [|a|o] eqn:Ews.
  - intros [= <- <-]. split; [|done]. cbn. intros a.
    destruct (prepare (world wk) db (task wk)) as [| |b] eqn:Ep;
      try discriminate.
    intros [= <-]. intros Eb.
    rewrite (prepare_below_threshold (world wk) db (task wk) ev) in Ep;
      [discriminate| |assumption].
    apply prepare_ready in Ep. by rewrite Hev, <- Ep, Eb.
  - destruct (persist (world wk) db a) as [db1 o] eqn:Ep.
    intros [= <- <-]. cbn. split; [discriminate|].
    destruct (persist_spec _ _ _ _ _ Ep)
      as (_ & _ & _ & _ & _ & Hcount & _).
    apply Hcount. intros ->. by eapply Hok.
  - intros [= <- <-]. rewrite Ews. split; [discriminate | done].
Qed.

(** No schedule stores an analysis for an event below the threshold. *)
Lemma run_schedule_below schedule (st : DB * list Worker) :
  events st.1 = stored -> Forall (holds_nothing_for eid) st.2 ->
  count_for (run_schedule schedule st).1 eid = count_for st.1 eid.
Proof.
  revert st. induction schedule as [|i schedule IH]; intros st Hev Hp.
  - done.
  - cbn. destruct st as [db pool]. unfold pool_step.
    cbn [fst snd] in *.
    destruct (pool !! i) as [wk|] eqn:Ei; [|by apply IH].
    destruct (worker_step db wk) as [db' wk'] eqn:E.
    destruct (worker_step_spec _ _ _ _ E) as (_ & _ & Hev' & _).
    assert (Hwk : holds_nothing_for eid wk).
    { eapply Forall_forall in Hp; [exact Hp|].
      by eapply list_elem_of_lookup_2. }
    destruct (worker_step_below _ _ _ _ Hev Hwk E) as [Hwk' Hc].
    rewrite IH; cbn [fst snd]; [exact Hc | congruence |].
    by apply Forall_insert.
Qed.
End BelowThreshold.
End Schedules.

Section RetryFacts.
Import Pipeline.

Lemma backoff_capped base n : backoff base n <= MAX_DELAY.
Proof. apply Z.le_min_r. Qed.

Lemma backoff_doubles base n :
  0 <= base -> base * 2 ^ Z.of_nat (S n) <= MAX_DELAY ->
  backoff base (S n) = 2 * backoff base n.
Proof.
  intros Hb. unfold backoff. rewrite Nat2Z.inj_succ, Z.pow_succ_r by lia.
  intros Hle.
  assert (0 < 2 ^ Z.of_nat n) by (apply Z.pow_pos_nonneg; lia).
  rewrite !Z.min_l; nia.
Qed.

(** Below the cap the delay is the exponential itself, from the cap on it
    is the cap; it is positive and never shrinks from one attempt to the
    next. *)
Lemma backoff_shape base n :
  0 < base ->
  0 < backoff base n
  /\ backoff base n <= backoff base (S n)
  /\ (base * 2 ^ Z.of_nat n <= MAX_DELAY ->
      backoff base n = base * 2 ^ Z.of_nat n)
  /\ (MAX_DELAY <= base * 2 ^ Z.of_nat n -> backoff base n = MAX_DELAY).
Proof.
  intros Hb. unfold backoff, MAX_DELAY.
  assert (0 < 2 ^ Z.of_nat n) by (apply Z.pow_pos_nonneg; lia).
  rewrite Nat2Z.inj_succ, Z.pow_succ_r by lia.
  repeat split; try lia; nia.
Qed.

(** A retry that is not yet due is not handed out, in whatever world; one
    that is due is run. *)
Lemma retry_waits_until_due base l now w :
  state (life_task l) = RetryScheduled ->
  (now < next_eligible (life_task l) -> deliver base l (now, w) = l)
  /\ (next_eligible (life_task l) <= now ->
      executions (deliver base l (now, w)) = S (executions l)).
Proof.
  intros Hs. unfold deliver, eligible. rewrite Hs. split; intros Hn.
  - apply Z.leb_gt in Hn. by rewrite Hn.
  - apply Z.leb_le in Hn. rewrite Hn.
    by destruct (process w (life_db l) (dequeue (life_task l))).
Qed.

(** A dead task is not handed out again. *)
Lemma dead_is_final base ds l :
  state (life_task l) = Dead -> run_deliveries base ds l = l.
Proof.
  intros Hd. induction ds as [|[now w] ds IH]; [reflexivity|].
  cbn. unfold eligible. rewrite Hd. exact IH.
Qed.

Lemma deliver_within_budget base l d :
  within_budget l -> within_budget (deliver base l d).
Proof.
  intros H. destruct d as [now w]. unfold deliver.
  destruct (eligible now (life_task l)) eqn:Hel; [|done].
  destruct (process w (life_db l) (dequeue (life_task l))) as [db' o].
  unfold within_budget, eligible, MAX_ATTEMPTS in *.
  assert (Hb : attempts (life_task l) = S (executions l)
               /\ (executions l < 3)%nat)
    by (destruct (state (life_task l)); done).
  destruct Hb as [Ha Hlt]. clear Hel.
  destruct o; cbn; try lia.
  rewrite Ha. destruct (executions l) as [|[|[|k]]]; cbn; lia.
Qed.

Lemma run_within_budget base ds l :
  within_budget l -> within_budget (run_deliveries base ds l).
Proof.
  revert l. induction ds as [|d ds IH]; intros l H; [done|].
  cbn. apply IH. by apply deliver_within_budget.
Qed.

Lemma within_budget_start db eid : within_budget (start_life db eid).
Proof. cbn. unfold MAX_ATTEMPTS. lia. Qed.

Lemma within_budget_bound l :
  within_budget l ->
  (executions l <= MAX_ATTEMPTS)%nat
  /\ (state (life_task l) = Dead -> executions l = MAX_ATTEMPTS)
  /\ (state (life_task l) = Dead <-> (MAX_ATTEMPTS < attempts (life_task l))%nat).
Proof.
  unfold within_budget, MAX_ATTEMPTS.
  destruct (state (life_task l)); intros H; try done.
  all: repeat split; try done; try lia; intros; exfalso; lia.
Qed.

Section AllFail.
Variable db : DB.
Variable eid : nat.
Variable ev : ErrorEvent.
Hypothesis ev_stored : events db !! eid = Some ev.
Hypothesis ev_severe : decide ev = true.
Hypothesis not_analysed : has_analysis db eid = false.

Lemma process_engine_down w t :
  task_event t = eid -> engine_down w -> process w db t = (db, Failed).
Proof.
  intros Ht Hdown. unfold process, prepare.
  rewrite Ht, ev_stored, not_analysed.
  unfold decide in ev_severe.
  destruct (status_code ev) as [c|]; [|discriminate].
  apply Z.leb_le in ev_severe.
  destruct (c <? 500) eqn:Hc; [apply Z.ltb_lt in Hc; lia|].
  by rewrite Hdown.
Qed.

Lemma deliver_only_failures base l d :
  engine_down d.2 -> only_failures db eid l ->
  only_failures db eid (deliver base l d).
Proof.
  destruct d as [now w]. cbn [snd]. intros Hdown (Hdb & Ht & Hs).
  unfold deliver.
  destruct (eligible now (life_task l)) eqn:Hel; [|done].
  rewrite Hdb, process_engine_down by done. unfold only_failures.
  cbn -[Nat.ltb].
  by destruct (MAX_ATTEMPTS <? S (attempts (life_task l)))%nat.
Qed.

Lemma run_only_failures base ds l :
  Forall (fun d => engine_down d.2) ds -> only_failures db eid l ->
  only_failures db eid (run_deliveries base ds l).
Proof.
  intros Hds. revert l. induction Hds as [|d ds Hd Hds IH]; intros l H.
  - done.
  - cbn. apply IH. by apply deliver_only_failures.
Qed.

(** An attempt that fails: the counter goes up by one and the attempt is
    counted; before the third failure the task is rescheduled, due after the
    backoff delay of the attempt that failed; with the third it is dead. *)
Lemma deliver_failed base l now w :
  life_db l = db -> task_event (life_task l) = eid -> engine_down w ->
  eligible now (life_task l) = true ->
  let l' := deliver base l (now, w) in
  life_db l' = db
  /\ task_event (life_task l') = eid
  /\ executions l' = S (executions l)
  /\ attempts (life_task l') = S (attempts (life_task l))
  /\ ((attempts (life_task l) < MAX_ATTEMPTS)%nat ->
      state (life_task l') = RetryScheduled
      /\ next_eligible (life_task l')
         = now + backoff base (attempts (life_task l)))
  /\ ((MAX_ATTEMPTS <= attempts (life_task l))%nat ->
      state (life_task l') = Dead).
Proof.
  intros Hdb Ht Hdown Hel. unfold deliver. rewrite Hel, Hdb.
  rewrite process_engine_down by done. cbn -[Nat.ltb].
  destruct (MAX_ATTEMPTS <? S (attempts (life_task l)))%nat eqn:Hlt; cbn.
  - apply Nat.ltb_lt in Hlt. repeat split; try done; intros; exfalso; lia.
  - apply Nat.ltb_ge in Hlt. repeat split; try done; intros; exfalso; lia.
Qed.

(** Three offers, each made when the task is due, to workers whose engine
    is down: the first two failures reschedule the task, the third kills
    it. *)
Lemma three_failures base n1 n2 n3 w1 w2 w3 :
  engine_down w1 -> engine_down w2 -> engine_down w3 ->
  n1 + backoff base 1 <= n2 -> n2 + backoff base 2 <= n3 ->
  let l1 := deliver base (start_life db eid) (n1, w1) in
  let l2 := deliver base l1 (n2, w2) in
  let l3 := deliver base l2 (n3, w3) in
  life_task l1
  = {| task_event := eid; attempts := 2; state := RetryScheduled;
       next_eligible := n1 + backoff base 1 |}
  /\ life_task l2
     = {| task_event := eid; attempts := 3; state := RetryScheduled;
          next_eligible := n2 + backoff base 2 |}
  /\ state (life_task l3) = Dead
  /\ executions l3 = 3%nat
  /\ life_db l3 = db.
Proof.
  intros Hd1 Hd2 Hd3 H12 H23 l1 l2 l3.
  assert (E1 : l1 = {| life_db := db;
                       life_task :=
                         {| task_event := eid; attempts := 2;
                            state := RetryScheduled;
                            next_eligible := n1 + backoff base 1 |};
                       executions := 1 |}).
  { subst l1. unfold deliver, start_life. cbn [eligible life_task new_task state].
    cbn [life_db]. by rewrite process_engine_down. }
  assert (E2 : l2 = {| life_db := db;
                       life_task :=
                         {| task_event := eid; attempts := 3;
                            state := RetryScheduled;
                            next_eligible := n2 + backoff base 2 |};
                       executions := 2 |}).
  { subst l2. rewrite E1. unfold deliver, eligible.
    cbn [life_task state next_eligible life_db].
    apply Z.leb_le in H12. rewrite H12.
    by rewrite process_engine_down. }
  assert (E3 : l3 = {| life_db := db;
                       life_task :=
                         {| task_event := eid; attempts := 4;
                            state := Dead;
                            next_eligible := n2 + backoff base 2 |};
                       executions := 3 |}).
  { subst l3. rewrite E2. unfold deliver, eligible.
    cbn [life_task state next_eligible life_db].
    apply Z.leb_le in H23. rewrite H23.
    by rewrite process_engine_down. }
  rewrite E1, E2, E3. done.
Qed.

(** A failed attempt that is not the last is rescheduled within the
    cap. *)
Lemma retry_is_within_cap base now w t :
  task_event t = eid -> engine_down w ->
  let t' := settle base now (dequeue t) (process w db (dequeue t)).2 in
  state t' = RetryScheduled ->
  next_eligible t' = now + backoff base (attempts t)
  /\ next_eligible t' <= now + MAX_DELAY.
Proof.
  intros Ht Hdown. rewrite process_engine_down by done. cbn -[Nat.ltb].
  destruct (MAX_ATTEMPTS <? S (attempts t))%nat; cbn; [discriminate|].
  intros _. split; [reflexivity|].
  pose proof (backoff_capped base (attempts t)). lia.
Qed.
End AllFail.
End RetryFacts.

(** Claim C1. Let an event at the threshold be stored and not yet analysed,
    in a database that satisfies the uniqueness constraint, and let the same
    task be delivered twice, to workers for which the engine and the database
    answer.  Whatever the interleaving of the two workers' steps, the event
    never has more than one analysis, and once both workers are done it has
    exactly one.  Delivered one after the other, the first attempt stores the
    analysis; any later attempt, by whatever worker, stops at the idempotency
    check: it is acknowledged as a no-op and leaves the database as it is,
    also when the engine is down or the database takes no insert, so neither
    was asked.  That holds for every task and database: a worker that comes
    to an event whose analysis exists goes from idle straight to done, without
    a record to insert.  And no pool of workers, on whatever tasks and under
    whatever schedule, ever leaves two analyses for one event. *)
Theorem one_analysis_under_duplicate_delivery :
  forall (db : Pipeline.DB) (eid : nat) (ev : Pipeline.ErrorEvent)
         (w1 w2 : Pipeline.World) (schedule : list nat),
    Pipeline.unique_analyses db ->
    Pipeline.events db !! eid = Some ev ->
    Pipeline.decide ev = true ->
    Pipeline.has_analysis db eid = false ->
    (forall m fs ss, is_Some (Pipeline.analyze w1 m fs ss)) ->
    (forall m fs ss, is_Some (Pipeline.analyze w2 m fs ss)) ->
    Pipeline.database_up w1 = true ->
    Pipeline.database_up w2 = true ->
    let t := Pipeline.new_task eid in
    let worker w :=
      {| Pipeline.world := w; Pipeline.task := t;
         Pipeline.wstate := Pipeline.Idle |} in
    let final := Pipeline.run_schedule schedule (db, [worker w1; worker w2]) in
    (Pipeline.count_for final.1 eid <= 1)%nat
    /\ (Forall (fun wk => Pipeline.finished wk = true) final.2 ->
        Pipeline.count_for final.1 eid = 1%nat)
    /\ (exists a,
          Pipeline.process w1 db t
          = ({| Pipeline.events := Pipeline.events db;
                Pipeline.projects := Pipeline.projects db;
                Pipeline.analyses := a :: Pipeline.analyses db |},
             Pipeline.AckSuccess)
          /\ (forall w' : Pipeline.World,
                Pipeline.prepare w' (Pipeline.process w1 db t).1 t
                = Pipeline.PrepNoop
                /\ Pipeline.process w' (Pipeline.process w1 db t).1 t
                   = ((Pipeline.process w1 db t).1, Pipeline.AckNoop))
          /\ Pipeline.count_for (Pipeline.process w1 db t).1 eid = 1%nat)
    /\ (forall (w' : Pipeline.World) (db' : Pipeline.DB)
               (t' : Pipeline.TaskRecord) ev',
          Pipeline.events db' !! Pipeline.task_event t' = Some ev' ->
          Pipeline.has_analysis db' (Pipeline.task_event t') = true ->
          Pipeline.prepare w' db' t' = Pipeline.PrepNoop
          /\ Pipeline.process w' db' t' = (db', Pipeline.AckNoop)
          /\ Pipeline.worker_step db'
               {| Pipeline.world := w'; Pipeline.task := t';
                  Pipeline.wstate := Pipeline.Idle |}
             = (db', {| Pipeline.world := w'; Pipeline.task := t';
                        Pipeline.wstate :=
                          Pipeline.Finished Pipeline.AckNoop |}))
    /\ (forall pool sched e,
          (Pipeline.count_for (Pipeline.run_schedule sched (db, pool)).1 e <= 1)%nat).
Proof.
  intros db eid ev w1 w2 schedule Hu Hev Hsev Hnone Hup1 Hup2 Hdb1 Hdb2
    t worker final.
  assert (Hinv :
    Pipeline.events final.1 = Pipeline.events db
    /\ Pipeline.unique_analyses final.1
    /\ Forall (fun wk => Pipeline.delivery_of eid wk
                         /\ Pipeline.on_track eid final.1 wk) final.2).
  { apply (run_schedule_on_track eid ev (Pipeline.events db) Hev Hsev);
      [reflexivity | exact Hu |].
    cbn. repeat constructor; assumption. }
  destruct Hinv as (_ & Hu' & Hpool).
  split; [by apply count_for_unique|].
  split.
  { intros Hfin.
    assert (Hlen : length final.2 = 2%nat)
      by (subst final; by rewrite run_schedule_length).
    destruct final.2 as [|wk rest] eqn:E; [discriminate|].
    apply Forall_cons in Hpool as [[_ Hwk] _].
    apply Forall_cons in Hfin as [Hf _].
    unfold Pipeline.finished in Hf. unfold Pipeline.on_track in Hwk.
    destruct (Pipeline.wstate wk); try discriminate.
    apply count_for_pos in Hwk.
    apply Nat.le_antisymm; [exact (count_for_unique _ _ Hu') | exact Hwk]. }
  assert (Hskip : forall (w' : Pipeline.World) (db' : Pipeline.DB)
                         (t' : Pipeline.TaskRecord) ev',
            Pipeline.events db' !! Pipeline.task_event t' = Some ev' ->
            Pipeline.has_analysis db' (Pipeline.task_event t') = true ->
            Pipeline.prepare w' db' t' = Pipeline.PrepNoop
            /\ Pipeline.process w' db' t' = (db', Pipeline.AckNoop)
            /\ Pipeline.worker_step db'
                 {| Pipeline.world := w'; Pipeline.task := t';
                    Pipeline.wstate := Pipeline.Idle |}
               = (db', {| Pipeline.world := w'; Pipeline.task := t';
                          Pipeline.wstate :=
                            Pipeline.Finished Pipeline.AckNoop |})).
  { intros w' db' t' ev' Hev' Hh'.
    pose proof (prepare_analysed w' db' t' ev' Hev' Hh') as Hprep.
    split; [exact Hprep|]. split.
    - unfold Pipeline.process. by rewrite Hprep.
    - unfold Pipeline.worker_step. cbn. by rewrite Hprep. }
  split.
  { destruct (prepare_at_threshold w1 db t ev) as [a Ea]; try assumption.
    pose proof (prepare_ready _ _ _ _ Ea) as Eid. cbn in Eid.
    exists a.
    set (db1 := {| Pipeline.events := Pipeline.events db;
                   Pipeline.projects := Pipeline.projects db;
                   Pipeline.analyses := a :: Pipeline.analyses db |}).
    assert (Ep : Pipeline.process w1 db t = (db1, Pipeline.AckSuccess)).
    { unfold Pipeline.process. rewrite Ea.
      unfold Pipeline.persist. by rewrite Hdb1, Eid, Hnone. }
    rewrite Ep. cbn [fst].
    assert (Hh : Pipeline.has_analysis db1 eid = true).
    { unfold Pipeline.has_analysis. cbn. by rewrite Eid, Nat.eqb_refl. }
    split; [reflexivity|]. split.
    - intros w'.
      destruct (Hskip w' db1 t ev Hev Hh) as (H1 & H2 & _). by split.
    - assert (Hu1 : Pipeline.unique_analyses db1).
      { unfold Pipeline.unique_analyses. cbn. apply NoDup_cons.
        split; [|exact Hu]. rewrite Eid.
        intros Hin%has_analysis_elem. congruence. }
      apply count_for_pos in Hh.
      apply Nat.le_antisymm; [exact (count_for_unique _ _ Hu1) | exact Hh]. }
  split; [exact Hskip|].
  intros pool sched e. apply count_for_unique.
  by apply (run_schedule_unique sched (db, pool)).
Qed.

Lemma one_analysis_under_duplicate_delivery_witness :
  Pipeline.count_for
    (Pipeline.run_schedule [0; 1; 0; 1]%nat
       (demo_db (Some 500),
        [demo_worker (demo_world (Pipeline.Snippet "query(sql)") true);
         demo_worker (demo_world Pipeline.AccessDenied true)])).1 7
  = 1%nat
  /\ (let db1 :=
        (Pipeline.process (demo_world (Pipeline.Snippet "query(sql)") true)
           (demo_db (Some 500)) (Pipeline.new_task 7)).1 in
      Pipeline.process (demo_world Pipeline.NetworkError false) db1
        (Pipeline.new_task 7)
      = (db1, Pipeline.AckNoop)).
Proof.
  assert (H := fun H1 H2 H3 H4 H5 H6 H7 H8 =>
    one_analysis_under_duplicate_delivery (demo_db (Some 500)) 7
      (demo_event (Some 500))
      (demo_world (Pipeline.Snippet "query(sql)") true)
      (demo_world Pipeline.AccessDenied true)
      [0; 1; 0; 1]%nat H1 H2 H3 H4 H5 H6 H7 H8).
  cbv zeta in H.
  specialize (H NoDup_nil_2 eq_refl eq_refl eq_refl
                (fun _ _ _ => ex_intro _ _ eq_refl)
                (fun _ _ _ => ex_intro _ _ eq_refl) eq_refl eq_refl).
  destruct H as (_ & Hdone & (a & _ & Hskip & _) & _).
  split.
  - apply Hdone. vm_compute. repeat constructor.
  - exact (proj2 (Hskip (demo_world Pipeline.NetworkError false))).
Defined.

(** Claim C2. The trigger policy says "enqueue" exactly for a status code
    that is present and at least 500, and with the broker up that is exactly
    when a task for the event joins the queue.  For an event below 500 (or
    without a status code) the queue is left as it was, whether the broker is
    up or not, and should a task for it be delivered all the same, no worker
    of any pool under any schedule stores an analysis for it. *)
Theorem analysis_enqueued_iff_severe :
  forall (db : Pipeline.DB) (ev : Pipeline.ErrorEvent)
         (queue : list Pipeline.TaskRecord) (broker_up : bool)
         (pool : list Pipeline.Worker) (schedule : list nat),
    Pipeline.events db !! Pipeline.id ev = Some ev ->
    Forall Pipeline.idle pool ->
    (Pipeline.decide ev = true
     <-> exists c, Pipeline.status_code ev = Some c /\ 500 <= c)
    /\ Pipeline.onErrorStored true queue ev
       = (if Pipeline.decide ev
          then queue ++ [Pipeline.new_task (Pipeline.id ev)] else queue)
    /\ (Pipeline.decide ev = false ->
        Pipeline.onErrorStored broker_up queue ev = queue
        /\ Pipeline.count_for (Pipeline.run_schedule schedule (db, pool)).1
             (Pipeline.id ev)
           = Pipeline.count_for db (Pipeline.id ev))
    /\ (forall c, Pipeline.status_code ev = Some c -> c < 500 ->
                  Pipeline.decide ev = false).
Proof.
  intros db ev queue broker_up pool schedule Hev Hidle.
  split.
  { unfold Pipeline.decide. destruct (Pipeline.status_code ev) as [c|].
    - rewrite Z.leb_le. split; [eauto|]. by intros (c' & [= <-] & H).
    - split; [discriminate|]. by intros (c & ? & _). }
  split; [reflexivity|].
  split.
  { intros Hd. split.
    - unfold Pipeline.onErrorStored. by rewrite Hd.
    - apply (run_schedule_below (Pipeline.id ev) ev (Pipeline.events db)
               Hev Hd schedule (db, pool)); [reflexivity|].
      cbn. eapply Forall_impl; [exact Hidle|].
      intros wk Hwk a Ha. unfold Pipeline.idle in Hwk. congruence. }
  intros c Hc Hlt. unfold Pipeline.decide. rewrite Hc. by apply Z.leb_gt.
Qed.

Lemma analysis_enqueued_iff_severe_witness :
  Pipeline.onErrorStored true [] (demo_event (Some 404)) = []
  /\ Pipeline.count_for
       (Pipeline.run_schedule [0; 0; 1; 1]%nat
          (demo_db (Some 404),
           [demo_worker (demo_world (Pipeline.Snippet "query(sql)") true);
            demo_worker (demo_world (Pipeline.Snippet "query(sql)") true)])).1 7
     = 0%nat.
Proof.
  refine (proj1 (proj2 (proj2
    (analysis_enqueued_iff_severe (demo_db (Some 404)) (demo_event (Some 404))
       [] true
       [demo_worker (demo_world (Pipeline.Snippet "query(sql)") true);
        demo_worker (demo_world (Pipeline.Snippet "query(sql)") true)]
       [0; 0; 1; 1]%nat _ _))) _).
  - reflexivity.
  - repeat constructor.
  - reflexivity.
Defined.

(** Claim C3. Take a task whose every attempt fails (the engine is down at
    each delivery), for an event at the threshold that is stored and not yet
    analysed.  However often and whenever the broker offers it: the delay
    before a retry is the exponential [base * 2^attempt] cut off at 600
    seconds, and a failed attempt that is rescheduled is due again after
    exactly that delay; at most 3 attempts are run; the task is dead exactly
    when its attempt counter has passed 3, which is exactly when 3 attempts
    have been run; a dead task is not handed out again, whatever is offered
    later; and the database is as it was, so the event still has no
    analysis.  The bound of 3 attempts holds for every task, whether its
    attempts fail or not.

    The retries themselves: for a positive [base] the delay is positive,
    never shrinks with the attempt, is the exponential itself up to the cap
    and the cap from there on.  An attempt that fails is counted and raises
    the counter by one; if it was the first or the second, the task is
    rescheduled, due after the delay of the attempt that failed, and if it
    was the third the task is dead.  A rescheduled task is not handed out
    before it is due, and is run when it is offered at or after that time.
    So three offers, each made when the task is due, are three attempts:
    the first two reschedule the task and the third kills it. *)
Theorem failing_task_retries_then_dies :
  forall (base : Z) (db : Pipeline.DB) (eid : nat) (ev : Pipeline.ErrorEvent)
         (ds : list (Z * Pipeline.World)),
    Pipeline.events db !! eid = Some ev ->
    Pipeline.decide ev = true ->
    Pipeline.has_analysis db eid = false ->
    Forall (fun d => Pipeline.engine_down d.2) ds ->
    let final := Pipeline.run_deliveries base ds (Pipeline.start_life db eid) in
    (forall n, Pipeline.backoff base n <= 600)
    /\ (forall n, 0 <= base -> base * 2 ^ Z.of_nat (S n) <= 600 ->
                  Pipeline.backoff base (S n) = 2 * Pipeline.backoff base n)
    /\ (Pipeline.executions final <= 3)%nat
    /\ (Pipeline.state (Pipeline.life_task final) = Pipeline.Dead
        <-> (3 < Pipeline.attempts (Pipeline.life_task final))%nat)
    /\ (Pipeline.state (Pipeline.life_task final) = Pipeline.Dead
        <-> Pipeline.executions final = 3%nat)
    /\ (Pipeline.state (Pipeline.life_task final) = Pipeline.Dead ->
        forall later, Pipeline.run_deliveries base later final = final)
    /\ Pipeline.life_db final = db
    /\ Pipeline.getAnalysis (Pipeline.life_db final) eid = None
    /\ (forall now w t,
          Pipeline.task_event t = eid -> Pipeline.engine_down w ->
          let t' := Pipeline.settle base now (Pipeline.dequeue t)
                      (Pipeline.process w db (Pipeline.dequeue t)).2 in
          Pipeline.state t' = Pipeline.RetryScheduled ->
          Pipeline.next_eligible t' = now + Pipeline.backoff base (Pipeline.attempts t)
          /\ Pipeline.next_eligible t' <= now + 600)
    /\ (forall db' eid' ds',
          (Pipeline.executions
             (Pipeline.run_deliveries base ds' (Pipeline.start_life db' eid'))
           <= 3)%nat)
    /\ (0 < base ->
        forall n,
          0 < Pipeline.backoff base n
          /\ Pipeline.backoff base n <= Pipeline.backoff base (S n)
          /\ (base * 2 ^ Z.of_nat n <= 600 ->
              Pipeline.backoff base n = base * 2 ^ Z.of_nat n)
          /\ (600 <= base * 2 ^ Z.of_nat n -> Pipeline.backoff base n = 600))
    /\ (forall (l : Pipeline.Life) now w,
          Pipeline.life_db l = db ->
          Pipeline.task_event (Pipeline.life_task l) = eid ->
          Pipeline.engine_down w ->
          Pipeline.eligible now (Pipeline.life_task l) = true ->
          let l' := Pipeline.deliver base l (now, w) in
          Pipeline.life_db l' = db
          /\ Pipeline.task_event (Pipeline.life_task l') = eid
          /\ Pipeline.executions l' = S (Pipeline.executions l)
          /\ Pipeline.attempts (Pipeline.life_task l')
             = S (Pipeline.attempts (Pipeline.life_task l))
          /\ ((Pipeline.attempts (Pipeline.life_task l) < 3)%nat ->
              Pipeline.state (Pipeline.life_task l') = Pipeline.RetryScheduled
              /\ Pipeline.next_eligible (Pipeline.life_task l')
                 = now + Pipeline.backoff base
                           (Pipeline.attempts (Pipeline.life_task l)))
          /\ ((3 <= Pipeline.attempts (Pipeline.life_task l))%nat ->
              Pipeline.state (Pipeline.life_task l') = Pipeline.Dead))
    /\ (forall (l : Pipeline.Life) now w,
          Pipeline.state (Pipeline.life_task l) = Pipeline.RetryScheduled ->
          (now < Pipeline.next_eligible (Pipeline.life_task l) ->
           Pipeline.deliver base l (now, w) = l)
          /\ (Pipeline.next_eligible (Pipeline.life_task l) <= now ->
              Pipeline.executions (Pipeline.deliver base l (now, w))
              = S (Pipeline.executions l)))
    /\ (forall n1 n2 n3 w1 w2 w3,
          Pipeline.engine_down w1 -> Pipeline.engine_down w2 ->
          Pipeline.engine_down w3 ->
          n1 + Pipeline.backoff base 1 <= n2 ->
          n2 + Pipeline.backoff base 2 <= n3 ->
          let l1 := Pipeline.deliver base (Pipeline.start_life db eid) (n1, w1) in
          let l2 := Pipeline.deliver base l1 (n2, w2) in
          let l3 := Pipeline.deliver base l2 (n3, w3) in
          Pipeline.life_task l1
          = {| Pipeline.task_event := eid; Pipeline.attempts := 2;
               Pipeline.state := Pipeline.RetryScheduled;
               Pipeline.next_eligible := n1 + Pipeline.backoff base 1 |}
          /\ Pipeline.life_task l2
             = {| Pipeline.task_event := eid; Pipeline.attempts := 3;
                  Pipeline.state := Pipeline.RetryScheduled;
                  Pipeline.next_eligible := n2 + Pipeline.backoff base 2 |}
          /\ Pipeline.state (Pipeline.life_task l3) = Pipeline.Dead
          /\ Pipeline.executions l3 = 3%nat
          /\ Pipeline.life_db l3 = db).
Proof.
  intros base db eid ev ds Hev Hsev Hnone Hds final.
  pose proof (run_within_budget base ds _ (within_budget_start db eid)) as Hb.
  fold final in Hb.
  destruct (within_budget_bound _ Hb) as (Hle & Hdead & Hiff).
  assert (Hf : Pipeline.only_failures db eid final).
  { apply (run_only_failures db eid ev Hev Hsev Hnone); [exact Hds|].
    repeat split. discriminate. }
  destruct Hf as (Hdb & _ & Hns).
  split; [exact (backoff_capped base)|].
  split; [exact (backoff_doubles base)|].
  split; [exact Hle|].
  split; [exact Hiff|].
  split.
  { split; [exact Hdead|]. intros H3.
    unfold Pipeline.within_budget, Pipeline.MAX_ATTEMPTS in Hb.
    destruct (Pipeline.state (Pipeline.life_task final));
      try done; try (exfalso; lia). }
  split; [intros Hd later; by apply dead_is_final|].
  split; [exact Hdb|].
  split.
  { rewrite Hdb. unfold Pipeline.has_analysis in Hnone.
    unfold Pipeline.getAnalysis.
    induction (Pipeline.analyses db) as [|a l IH]; [reflexivity|].
    cbn in *. apply orb_false_elim in Hnone as [-> Hl]. by apply IH. }
  split; [exact (retry_is_within_cap db eid ev Hev Hsev Hnone base)|].
  split.
  { intros db' eid' ds'.
    pose proof (run_within_budget base ds' _ (within_budget_start db' eid'))
      as Hb'.
    by apply within_budget_bound in Hb' as (? & _). }
  split; [intros Hbase n; by apply backoff_shape|].
  split.
  { intros l now w Hl Ht Hdown Hel.
    exact (deliver_failed db eid ev Hev Hsev Hnone base l now w Hl Ht Hdown Hel). }
  split; [intros l now w; apply retry_waits_until_due|].
  exact (three_failures db eid ev Hev Hsev Hnone base).
Qed.

Lemma failing_task_retries_then_dies_witness :
  let final :=
    Pipeline.run_deliveries 60
      [(0, demo_world Pipeline.NetworkError false);
       (200, demo_world Pipeline.NetworkError false);
       (900, demo_world Pipeline.NetworkError false);
       (5000, demo_world (Pipeline.Snippet "query(sql)") true)]
      (Pipeline.start_life (demo_db (Some 500)) 7) in
  Pipeline.state (Pipeline.life_task final) = Pipeline.Dead
  /\ Pipeline.executions final = 3%nat
  /\ Pipeline.life_db final = demo_db (Some 500).
Proof.
  cbv zeta.
  pose proof (failing_task_retries_then_dies 60 (demo_db (Some 500)) 7
    (demo_event (Some 500))
    [(0, demo_world Pipeline.NetworkError false);
     (200, demo_world Pipeline.NetworkError false);
     (900, demo_world Pipeline.NetworkError false)]
    eq_refl eq_refl eq_refl
    ltac:(repeat constructor)) as H.
  cbv zeta in H.
  destruct H as (_ & _ & _ & _ & Hiff & Hfinal & Hdb & _).
  assert (Hdead :
    Pipeline.state (Pipeline.life_task
      (Pipeline.run_deliveries 60
         [(0, demo_world Pipeline.NetworkError false);
          (200, demo_world Pipeline.NetworkError false);
          (900, demo_world Pipeline.NetworkError false)]
         (Pipeline.start_life (demo_db (Some 500)) 7))) = Pipeline.Dead).
  { apply Hiff. vm_compute. reflexivity. }
  change (Pipeline.run_deliveries 60
            [(0, demo_world Pipeline.NetworkError false);
             (200, demo_world Pipeline.NetworkError false);
             (900, demo_world Pipeline.NetworkError false);
             (5000, demo_world (Pipeline.Snippet "query(sql)") true)]
            (Pipeline.start_life (demo_db (Some 500)) 7))
    with (Pipeline.run_deliveries 60
            [(5000, demo_world (Pipeline.Snippet "query(sql)") true)]
            (Pipeline.run_deliveries 60
               [(0, demo_world Pipeline.NetworkError false);
                (200, demo_world Pipeline.NetworkError false);
                (900, demo_world Pipeline.NetworkError false)]
               (Pipeline.start_life (demo_db (Some 500)) 7))).
  rewrite (Hfinal Hdead).
  split; [exact Hdead|]. split; [by apply Hiff | exact Hdb].
Defined.






(** * Further properties of the code *)

(** ** The sanitizer *)

Section SanitizerFacts.
Import Regex PathSpec.
#[local] Arguments String.append !s1 s2 : simpl nomatch.

(** Splitting is the inverse of joining. *)
Lemma split_path_join (segs : list string) :
  Forall (fun seg => no_char "/"%char seg = true) segs ->
  forall pre, no_char "/"%char pre = true ->
  split_path (pre +:+ join_segments segs) = (pre, segs).
Proof.
  induction 1 as [|seg segs Hseg Hsegs IH]; intros pre Hpre.
  - induction pre as [|x pre IHp]; [reflexivity|].
    cbn in Hpre. apply andb_prop in Hpre as [Hx Hp].
    cbn [String.append split_path]. rewrite IHp by assumption.
    apply negb_true_iff in Hx. by rewrite Hx.
  - induction pre as [|x pre IHp].
    + cbn. rewrite (IH seg Hseg). reflexivity.
    + cbn in Hpre. apply andb_prop in Hpre as [Hx Hp].
      cbn [String.append split_path]. rewrite IHp by assumption.
      apply negb_true_iff in Hx. by rewrite Hx.
Qed.

Lemma uuid_rest_colon (x : string) : uuid_rest (":id" +:+ x) = None.
Proof. reflexivity. Qed.

Lemma uuid_rest_none_iff (s : string) :
  uuid_rest s = None <-> match_at (tl Sdk.uuid_re) s = None.
Proof.
  destruct (uuid_tail_match s) as [-> _]. by destruct (uuid_rest s).
Qed.

Lemma uuid_rest_boundary (seg rest : string) :
  boundary rest -> uuid_rest (seg +:+ rest) = None <-> uuid_rest seg = None.
Proof.
  intros Hb. rewrite !uuid_rest_none_iff.
  by rewrite match_at_boundary by auto using uuid_tail_slash_free.
Qed.

(** What is left of a segment has no slash and nothing more to replace. *)
Lemma sanitize_segment_spec (seg : string) :
  no_char "/"%char seg = true ->
  no_char "/"%char (sanitize_segment seg) = true
  /\ count_while is_digit (sanitize_segment seg) = 0%nat
  /\ uuid_rest (sanitize_segment seg) = None.
Proof.
  intros Hs. unfold sanitize_segment.
  destruct (uuid_tail_match seg) as [_ Hrest].
  destruct (uuid_rest seg) as [rest|] eqn:Hu.
  - rewrite (Hrest rest eq_refl), no_char_append, no_char_drop by assumption.
    by rewrite uuid_rest_colon.
  - destruct (count_while is_digit seg) as [|k] eqn:Hk; [done|].
    rewrite no_char_append, no_char_drop by assumption.
    by rewrite uuid_rest_colon.
Qed.

Lemma sanitize_segment_clean (seg : string) :
  count_while is_digit seg = 0%nat -> uuid_rest seg = None ->
  sanitize_segment seg = seg.
Proof. unfold sanitize_segment. by intros -> ->. Qed.

(** The text after a slash starts with one of the segments. *)
Lemma after_slash (s a t : string) :
  s = a +:+ String "/" t ->
  exists seg rest,
    seg ∈ (split_path s).2 /\ t = seg +:+ rest /\ boundary rest.
Proof.
  revert s. induction a as [|x a IH]; intros s ->.
  - cbn. destruct (split_path_spec t) as (Ht & _ & _).
    destruct (split_path t) as [p segs]. cbn in *.
    exists p, (join_segments segs).
    split; [apply list_elem_of_here|]. split; [exact Ht | apply boundary_join].
  - destruct (IH _ eq_refl) as (seg & rest & Hin & Ht & Hb).
    exists seg, rest. split; [|by split].
    cbn [String.append split_path].
    destruct (split_path (a +:+ String "/" t)) as [p segs]. cbn in Hin.
    case_bool_decide; cbn; [by apply list_elem_of_further | assumption].
Qed.

(** Every segment sits after a slash. *)
Lemma segment_occurs (s seg : string) :
  seg ∈ (split_path s).2 ->
  exists a rest, s = a +:+ String "/" (seg +:+ rest) /\ boundary rest.
Proof.
  induction s as [|x s IH]; cbn; [by intros ?%elem_of_nil|].
  destruct (split_path_spec s) as (Hs & _ & _).
  destruct (split_path s) as [p segs]. cbn in *.
  case_bool_decide as Hx; cbn.
  - subst x. intros [-> | Hin]%elem_of_cons.
    + exists EmptyString, (join_segments segs). cbn.
      split; [by rewrite <- Hs | apply boundary_join].
    + destruct (IH Hin) as (a & rest & -> & Hb).
      exists (String "/" a), rest. by split.
  - intros Hin. destruct (IH Hin) as (a & rest & -> & Hb).
    exists (String x a), rest. by split.
Qed.

Lemma split_sanitizePath (p : string) :
  split_path (Sdk.sanitizePath p)
  = ((split_path p).1, map sanitize_segment (split_path p).2).
Proof.
  destruct (split_path_spec p) as (Hp & Hpre & Hsegs).
  rewrite Hp at 1. rewrite sanitizePath_by_segment by assumption.
  apply split_path_join; [|assumption].
  apply Forall_map. eapply Forall_impl; [exact Hsegs|].
  intros seg Hseg. by apply sanitize_segment_spec.
Qed.

Lemma sanitizePath_split (p : string) :
  Sdk.sanitizePath p
  = (split_path p).1 +:+ join_segments (map sanitize_segment (split_path p).2).
Proof.
  destruct (split_path_spec p) as (Hp & Hpre & Hsegs).
  rewrite Hp at 1. by apply sanitizePath_by_segment.
Qed.
End SanitizerFacts.

(** X1. Sanitizing a sanitized path changes nothing. *)
Theorem sanitizePath_idempotent :
  forall p : string, Sdk.sanitizePath (Sdk.sanitizePath p) = Sdk.sanitizePath p.
Proof.
  intros p. rewrite (sanitizePath_split (Sdk.sanitizePath p)).
  rewrite split_sanitizePath. cbn [fst snd].
  etrans; [|symmetry; apply sanitizePath_split]. f_equal. f_equal.
  rewrite map_map. apply map_ext_in. intros seg Hin.
  destruct (split_path_spec p) as (_ & _ & Hsegs).
  rewrite Forall_forall in Hsegs.
  destruct (sanitize_segment_spec seg) as (_ & Hd & Hu).
  { apply Hsegs. by apply list_elem_of_In. }
  by apply sanitize_segment_clean.
Qed.

Section SanitizedPaths.
Import Regex PathSpec.

Lemma sanitized_after_slash (p a t : string) :
  Sdk.sanitizePath p = a +:+ String "/" t ->
  count_while is_digit t = 0%nat /\ uuid_rest t = None.
Proof.
  intros E.
  destruct (after_slash _ _ _ E) as (seg & rest & Hin & -> & Hb).
  rewrite split_sanitizePath in Hin. cbn in Hin.
  apply list_elem_of_In, in_map_iff in Hin as (seg0 & <- & Hin0).
  destruct (split_path_spec p) as (_ & _ & Hsegs).
  rewrite Forall_forall in Hsegs.
  destruct (sanitize_segment_spec seg0) as (_ & Hd & Hu).
  { apply Hsegs. by apply list_elem_of_In. }
  split.
  - by rewrite count_while_boundary.
  - by apply uuid_rest_boundary.
Qed.

Lemma clean_path_unchanged (p : string) :
  (forall a t, p = a +:+ String "/" t ->
               count_while is_digit t = 0%nat /\ uuid_rest t = None) ->
  Sdk.sanitizePath p = p.
Proof.
  intros Hclean. rewrite sanitizePath_split.
  destruct (split_path_spec p) as (Hp & _ & _).
  rewrite Hp at 3. f_equal. f_equal.
  rewrite <- (map_id (split_path p).2) at 2.
  apply map_ext_in. intros seg Hin%list_elem_of_In.
  destruct (segment_occurs _ _ Hin) as (a & rest & E & Hb).
  destruct (Hclean _ _ E) as [Hd Hu].
  apply sanitize_segment_clean.
  - by rewrite count_while_boundary in Hd.
  - by apply uuid_rest_boundary in Hu.
Qed.
End SanitizedPaths.

(** X2. In a sanitized path no slash is followed by a digit, and none by a
    UUID. *)
Theorem sanitized_path_has_no_id_after_slash :
  forall p a t : string,
    Sdk.sanitizePath p = a +:+ String "/" t ->
    Regex.count_while Regex.is_digit t = 0%nat
    /\ PathSpec.uuid_rest t = None.
Proof. exact sanitized_after_slash. Qed.

Lemma sanitized_path_has_no_id_after_slash_witness :
  Sdk.sanitizePath "/users/123/orders" = "/users" +:+ String "/" ":id/orders"
  /\ Regex.count_while Regex.is_digit ":id/orders" = 0%nat
  /\ PathSpec.uuid_rest ":id/orders" = None.
Proof.
  split; [vm_compute; reflexivity|].
  apply (sanitized_path_has_no_id_after_slash "/users/123/orders" "/users"
           ":id/orders").
  vm_compute. reflexivity.
Defined.

(** X3. The paths that [sanitizePath] leaves as they are are exactly those
    in which no slash is followed by a digit or by a UUID. *)
Theorem sanitizePath_fixed_points :
  forall p : string,
    Sdk.sanitizePath p = p
    <-> (forall a t, p = a +:+ String "/" t ->
                     Regex.count_while Regex.is_digit t = 0%nat
                     /\ PathSpec.uuid_rest t = None).
Proof.
  intros p. split.
  - intros E a t Hp. apply (sanitized_after_slash p a t). by rewrite E.
  - apply clean_path_unchanged.
Qed.

(** ** The capture middleware, further *)

(** X4. Whatever the error, request and response, an event that is posted
    has a truthy [message] and a truthy [status_code]. *)
Theorem posted_event_fields_are_truthy :
  forall options now err req res (h : JS.Heap),
    Forall (fun ev => JS.truthy (Sdk.message ev) = true
                      /\ JS.truthy (Sdk.status_code ev) = true)
      (Sdk.posted_events
         (Sdk.effects (Sdk.errorIngestionMiddleware options now err req res h))).
Proof.
  intros options now err req res h.
  destruct (JS.truthy (JS.getProp h err Sdk.INGESTED)) eqn:Hm.
  - rewrite middleware_marked by assumption. constructor.
  - destruct (middleware_unmarked options now err req res h Hm)
      as (ev & E & Hsc & _ & Hmsg & _).
    rewrite E. cbn. constructor; [|constructor]. split.
    + rewrite Hmsg. unfold JS.js_or.
      by destruct (JS.truthy (JS.getProp h err (JS.KStr "message"))) eqn:Ht.
    + rewrite Hsc. cbv zeta.
      destruct (JS.truthy (JS.js_or _ _)) eqn:Ht; [exact Ht|].
      destruct (JS.truthy (Sdk.res_statusCode res)) eqn:Hr; cbn; [|reflexivity].
      by destruct (JS.strict_neq _ _).
Qed.

(** X5. A truthy [err.statusCode] is what is posted, whatever [err.status]
    and the response say; without it a truthy [err.status] is. *)
Theorem error_status_code_takes_precedence :
  forall options now err req res (h : JS.Heap),
    JS.truthy (JS.getProp h err (JS.KStr "statusCode")) = true
    \/ JS.truthy (JS.getProp h err (JS.KStr "status")) = true ->
    Forall (fun ev =>
              Sdk.status_code ev
              = if JS.truthy (JS.getProp h err (JS.KStr "statusCode"))
                then JS.getProp h err (JS.KStr "statusCode")
                else JS.getProp h err (JS.KStr "status"))
      (Sdk.posted_events
         (Sdk.effects (Sdk.errorIngestionMiddleware options now err req res h))).
Proof.
  intros options now err req res h Hor.
  destruct (JS.truthy (JS.getProp h err Sdk.INGESTED)) eqn:Hm.
  - rewrite middleware_marked by assumption. constructor.
  - destruct (middleware_unmarked options now err req res h Hm)
      as (ev & E & Hsc & _).
    rewrite E. cbn. constructor; [|constructor].
    rewrite Hsc. cbv zeta. unfold JS.js_or.
    destruct (JS.truthy (JS.getProp h err (JS.KStr "statusCode"))) eqn:H1.
    + by rewrite H1.
    + destruct Hor as [Hor | Hor]; [discriminate|]. by rewrite Hor.
Qed.

Lemma error_status_code_takes_precedence_witness :
  let h := JS.setProp test_heap 1%positive (JS.KStr "statusCode") (JS.JNum 404) in
  JS.truthy (JS.getProp h 1%positive (JS.KStr "statusCode")) = true
  /\ Forall (fun ev => Sdk.status_code ev = JS.JNum 404)
       (Sdk.posted_events
          (Sdk.effects
             (Sdk.errorIngestionMiddleware test_options
                "2024-01-15T12:00:00.000Z" 1%positive test_request
                (test_response 500) h))).
Proof.
  cbv zeta. split; [reflexivity|].
  exact (error_status_code_takes_precedence test_options
    "2024-01-15T12:00:00.000Z" 1%positive test_request (test_response 500)
    (JS.setProp test_heap 1%positive (JS.KStr "statusCode") (JS.JNum 404))
    (or_introl eq_refl)).
Defined.

(** X6. Capturing one error does not mark another: after any capture of
    [err1], the first capture of a different, unmarked error [err2] still
    posts its event. *)
Theorem capture_of_distinct_errors_is_independent :
  forall options1 now1 req1 res1 options2 now2 req2 res2
         (err1 err2 : JS.ref) (h : JS.Heap),
    err1 <> err2 ->
    JS.truthy (JS.getProp h err2 Sdk.INGESTED) = false ->
    let h1 := Sdk.heap (Sdk.errorIngestionMiddleware options1 now1 err1 req1 res1 h) in
    JS.truthy (JS.getProp h1 err2 Sdk.INGESTED) = false
    /\ length (Sdk.posted_events
                 (Sdk.effects
                    (Sdk.errorIngestionMiddleware options2 now2 err2 req2 res2 h1)))
       = 1%nat.
Proof.
  intros options1 now1 req1 res1 options2 now2 req2 res2 err1 err2 h Hne Hm h1.
  assert (H1 : JS.truthy (JS.getProp h1 err2 Sdk.INGESTED) = false).
  { subst h1. destruct (JS.truthy (JS.getProp h err1 Sdk.INGESTED)) eqn:Hm1.
    - by rewrite middleware_marked.
    - destruct (middleware_unmarked options1 now1 err1 req1 res1 h Hm1)
        as (ev & E & _).
      rewrite E. cbn. by rewrite getProp_setProp_other_ref. }
  split; [exact H1|].
  destruct (middleware_unmarked options2 now2 err2 req2 res2 h1 H1)
    as (ev & E & _).
  by rewrite E.
Qed.

Lemma capture_of_distinct_errors_is_independent_witness :
  length (Sdk.posted_events
            (Sdk.effects
               (Sdk.errorIngestionMiddleware test_options
                  "2024-01-15T12:00:01.000Z" 2%positive test_request
                  (test_response 500)
                  (Sdk.heap
                     (Sdk.errorIngestionMiddleware test_options
                        "2024-01-15T12:00:00.000Z" 1%positive test_request
                        (test_response 500) test_heap)))))
  = 1%nat.
Proof.
  refine (proj2 (capture_of_distinct_errors_is_independent
    test_options "2024-01-15T12:00:00.000Z" test_request (test_response 500)
    test_options "2024-01-15T12:00:01.000Z" test_request (test_response 500)
    1%positive 2%positive test_heap _ _)).
  - discriminate.
  - reflexivity.
Defined.

(** X7. When the send has settled, the SDK writes one warning, with the
    message of the failure, if the send failed and [NODE_ENV] is
    ['development']; in every other case it does nothing at all, and it
    never touches the heap. *)
Theorem send_failure_logged_only_in_development :
  forall node_env (o : Sdk.PostOutcome) (h : JS.Heap),
    Sdk.effects (Sdk.settle_send node_env o h)
    = (match o with
       | Sdk.PostOk => []
       | _ =>
           if bool_decide (node_env = Some "development")
           then [Sdk.ConsoleWarn
                   ("[Error Ingestion SDK] Failed to send error event: "
                    +:+ Sdk.axios_error_message o)]
           else []
       end)
    /\ Sdk.heap (Sdk.settle_send node_env o h) = h.
Proof.
  intros node_env o h. rewrite settle_send_run.
  unfold Sdk.sendErrorEvent_resume, Sdk.await_post.
  destruct o; run_M; try done; case_bool_decide; run_M; done.
Qed.

(** X19. The handler's own turn throws exactly on a value that does not
    carry the marker and cannot be given it: a primitive, a frozen object
    whose marker is not truthy, and an object closed to extension that has no
    marker property of its own.  Where it throws it has posted nothing, has
    not called [next], and has left the store as it was.  On an object that is
    open to extension it does what the handler of [Sdk] does. *)
Theorem handler_throws_iff_error_cannot_be_marked :
  forall options now (s : Capture.Store) (err : Capture.Value) req res,
    let own_turn := Capture.errorIngestionMiddleware options now err req res s in
    (Capture.completion own_turn = Capture.ThrowTypeError
     <-> match err with
         | Capture.Prim _ => True
         | Capture.Obj r =>
             JS.truthy (JS.getProp (Capture.objects s) r Sdk.INGESTED) = false
             /\ match Capture.integrity s r with
                | Capture.Extensible => False
                | Capture.NonExtensible =>
                    Capture.has_own s r Sdk.INGESTED = false
                | Capture.Frozen => True
                end
         end)
    /\ (Capture.completion own_turn = Capture.ThrowTypeError ->
        Capture.effects own_turn = [] /\ Capture.store own_turn = s)
    /\ (forall r,
          err = Capture.Obj r ->
          Capture.integrity s r = Capture.Extensible ->
          own_turn
          = Capture.of_sdk_run s
              (Sdk.errorIngestionMiddleware options now r req res
                 (Capture.objects s))).
Proof.
  intros options now s err req res own_turn.
  assert (Hcases :
    (Capture.takes_marker s err = false
     /\ own_turn = {| Capture.effects := []; Capture.store := s;
                      Capture.completion := Capture.ThrowTypeError |})
    \/ (Capture.takes_marker s err = true
        /\ exists sent, Capture.completion own_turn = Capture.Normal sent)).
  { destruct (Capture.takes_marker s err) eqn:Ht.
    - right. split; [reflexivity|]. subst own_turn.
      destruct err as [v|r]; [discriminate|]. cbn in Ht.
      destruct (JS.truthy (JS.getProp (Capture.objects s) r Sdk.INGESTED))
        eqn:Hm.
      + rewrite capture_marked by assumption. eauto.
      + destruct (capture_unmarked options now req res s r Hm Ht)
          as (ev & E & _).
        rewrite E. eauto.
    - left. split; [reflexivity|]. by apply capture_throws. }
  assert (Htakes :
    Capture.takes_marker s err = false
    <-> match err with
        | Capture.Prim _ => True
        | Capture.Obj r =>
            JS.truthy (JS.getProp (Capture.objects s) r Sdk.INGESTED) = false
            /\ match Capture.integrity s r with
               | Capture.Extensible => False
               | Capture.NonExtensible =>
                   Capture.has_own s r Sdk.INGESTED = false
               | Capture.Frozen => True
               end
        end).
  { destruct err as [v|r]; cbn; [done|].
    rewrite orb_false_iff. unfold Capture.can_write.
    destruct (Capture.integrity s r); split; intros [? ?]; done. }
  split; [|split].
  - rewrite <- Htakes. destruct Hcases as [[Ht E] | [Ht [sent E]]].
    + rewrite E. done.
    + rewrite E, Ht. split; discriminate.
  - destruct Hcases as [[Ht E] | [Ht [sent E]]].
    + rewrite E. done.
    + rewrite E. discriminate.
  - intros r -> Hi. by apply capture_agrees_with_sdk.
Qed.

(** ** The API client *)

Section JsStringFacts.
Import JsString.
#[local] Arguments String.append !s1 s2 : simpl nomatch.

Lemma startsWith_spec (s prefix : string) :
  startsWith s prefix = true <-> exists t, s = prefix +:+ t.
Proof.
  revert s. induction prefix as [|a p IH]; intros s; cbn.
  - destruct s; (split; [eauto | reflexivity]).
  - destruct s as [|b t]; cbn.
    + split; [discriminate | by intros [? ?]].
    + rewrite andb_true_iff, bool_decide_eq_true, IH. split.
      * intros [-> [u ->]]. eauto.
      * intros [u [= -> ->]]. eauto.
Qed.

Lemma includes_spec (s needle : string) :
  includes s needle = true <-> exists a b, s = a +:+ needle +:+ b.
Proof.
  induction s as [|x s IH].
  - cbn [includes]. rewrite orb_false_r, startsWith_spec. split.
    + intros [t E]. by exists EmptyString, t.
    + intros (a & b & E). destruct a; [by exists b|discriminate].
  - cbn [includes]. rewrite orb_true_iff, startsWith_spec, IH. split.
    + intros [[t E] | (a & b & E)].
      * by exists EmptyString, t.
      * exists (String x a), b. cbn. by rewrite E.
    + intros (a & b & E). destruct a as [|y a]; cbn in E.
      * left. eauto.
      * right. injection E as -> E. eauto.
Qed.
End JsStringFacts.

Section ApiFacts.
Import Frontend JsString Api.
#[local] Arguments String.append !s1 s2 : simpl nomatch.


Lemma request_headers_lookup window options requireAuth (k : string) :
  request_headers window options requireAuth !! k
  = if bool_decide (k = "Authorization") && requireAuth
       && truthy_string (getApiToken window)
    then Some ("Bearer " +:+ default EmptyString (getApiToken window))
    else if bool_decide (k = "Content-Type")
         then Some (default "application/json" (headers options !! k))
         else headers options !! k.
Proof.
  unfold request_headers.
  assert (Hbase : (headers options ∪ {[ "Content-Type" := "application/json" ]})
                    !! k
                  = if bool_decide (k = "Content-Type")
                    then Some (default "application/json" (headers options !! k))
                    else headers options !! k).
  { rewrite lookup_union. case_bool_decide as Hk.
    - subst k. rewrite lookup_singleton_eq.
      by destruct (headers options !! "Content-Type").
    - rewrite lookup_singleton_ne by done.
      by destruct (headers options !! k). }
  cbv zeta. destruct requireAuth.
  - destruct (truthy_string (getApiToken window)).
    + rewrite !andb_true_r.
      destruct (base.decide (k = "Authorization")) as [Hk|Hk].
      * subst k. by rewrite lookup_insert_eq.
      * rewrite lookup_insert_ne by done.
        rewrite (bool_decide_eq_false_2 _ Hk). exact Hbase.
    + rewrite andb_false_r. exact Hbase.
  - rewrite andb_false_r. exact Hbase.
Qed.
End ApiFacts.

(** X8. On the client the token that [setApiToken] stores is the one
    [getApiToken] returns, a later [setApiToken] replaces it, and
    [clearApiToken] removes it; none of the three touches any other key of
    the storage.  On the server all three do nothing and there is no
    token. *)
Theorem api_token_storage_laws :
  forall (ls : Frontend.Storage) (t t' : string),
    Frontend.getApiToken (Frontend.setApiToken t (Some ls)) = Some t
    /\ Frontend.setApiToken t' (Frontend.setApiToken t (Some ls))
       = Frontend.setApiToken t' (Some ls)
    /\ Frontend.getApiToken (Frontend.clearApiToken
                               (Frontend.setApiToken t (Some ls))) = None
    /\ (forall k ls', k <> Frontend.API_TOKEN_KEY ->
          Frontend.setApiToken t (Some ls) = Some ls'
          \/ Frontend.clearApiToken (Some ls) = Some ls' ->
          Frontend.getItem ls' k = Frontend.getItem ls k)
    /\ Frontend.getApiToken None = None
    /\ Frontend.setApiToken t None = None
    /\ Frontend.clearApiToken None = None.
Proof.
  intros ls t t'. unfold Frontend.getApiToken, Frontend.setApiToken,
    Frontend.clearApiToken, Frontend.getItem, Frontend.setItem,
    Frontend.removeItem.
  split; [apply lookup_insert_eq|].
  split; [by rewrite insert_insert_eq|].
  split; [apply lookup_delete_eq|].
  split; [|done].
  intros k ls' Hk [[= <-] | [= <-]].
  - by apply lookup_insert_ne.
  - by apply lookup_delete_ne.
Qed.

(** X9. The headers that [apiRequest] hands to [fetch]: [Authorization] is
    the bearer token exactly when authentication is required and a non-empty
    token is stored, and then it replaces what the caller supplied;
    [Content-Type] is [application/json] unless the caller supplied one; every
    other header is the caller's.  The call made does not depend on how the
    request ends. *)
Theorem apiRequest_headers :
  forall (T : Type) base_url window endpoint options requireAuth
         (o o' : Api.FetchOutcome T) (k : string),
    let call := (Api.apiRequest base_url window endpoint options requireAuth o).1 in
    Api.sent_headers call !! k
    = (if bool_decide (k = "Authorization") && requireAuth
          && JsString.truthy_string (Frontend.getApiToken window)
       then Some ("Bearer " +:+ default EmptyString (Frontend.getApiToken window))
       else if bool_decide (k = "Content-Type")
            then Some (default "application/json" (Api.headers options !! k))
            else Api.headers options !! k)
    /\ Api.url call = base_url +:+ endpoint
    /\ (Api.apiRequest base_url window endpoint options requireAuth o').1 = call.
Proof.
  intros. subst call. cbn. split; [apply request_headers_lookup | done].
Qed.



(** X11. Every rejection of [apiRequest] is of one of three kinds: the 408
    "Request timeout" error; an error that is not an [AbortError] and whose
    message does not contain ["aborted"]; or the parse failure of the body of
    an ok response with a JSON content type, which is passed on as it is. *)
Theorem apiRequest_rejection_kinds :
  forall (T : Type) base_url window endpoint options requireAuth
         (o : Api.FetchOutcome T) (e : Api.JsError),
    (Api.apiRequest base_url window endpoint options requireAuth o).2
    = Api.Rejected e ->
    e = Api.timeout_error
    \/ (Api.name e <> "AbortError"
        /\ ~ exists a b, Api.message e = a +:+ "aborted" +:+ b)
    \/ (exists r, o = Api.Responds r /\ 200 <= Api.status r <= 299
                  /\ Api.json r = Api.ParseFails e).
Proof.
  intros T base_url window endpoint options requireAuth o e. cbn.
  assert (Hon : forall err : Api.JsError,
            Api.on_error (T := T) err = Api.Rejected e ->
            e = Api.timeout_error
            \/ (Api.name e <> "AbortError"
                /\ ~ exists a b, Api.message e = a +:+ "aborted" +:+ b)).
  { intros err. unfold Api.on_error.
    destruct (String.eqb (Api.name err) "AbortError") eqn:Hn; cbn.
    - intros [= <-]. by left.
    - destruct (JsString.includes (Api.message err) "aborted") eqn:Hi.
      + intros [= <-]. by left.
      + intros [= <-]. right. split.
        * by apply String.eqb_neq.
        * intros H%includes_spec. congruence. }
  destruct o as [r|err].
  - destruct (Api.ok r) eqn:Hok; cbn.
    + destruct (JsString.truthy_string (Api.content_type r)
                && JsString.includes _ _); [|discriminate].
      destruct (Api.json r) as [v d|e'] eqn:Hj; [discriminate|].
      intros [= <-]. right. right. exists r. split; [done|]. split; [|done].
      unfold Api.ok in Hok. apply andb_prop in Hok as [?%Z.leb_le ?%Z.leb_le].
      lia.
    + intros H. destruct (Hon _ H) as [?|?]; auto.
  - intros H. destruct (Hon _ H) as [?|?]; auto.
Qed.

Lemma apiRequest_rejection_kinds_witness :
  (Api.apiRequest "http://localhost:8000" (Some ∅) "/api/v1/projects"
     no_options true
     (Api.FetchRejects (T := unit)
        {| Api.name := "TypeError"; Api.message := "Failed to fetch";
           Api.statusCode := None; Api.detail := None |})).2
  = Api.Rejected
      {| Api.name := "TypeError"; Api.message := "Failed to fetch";
         Api.statusCode := None; Api.detail := None |}
  /\ ~ exists a b, "Failed to fetch" = a +:+ "aborted" +:+ b.
Proof.
  split; [reflexivity|].
  destruct (apiRequest_rejection_kinds unit "http://localhost:8000" (Some ∅)
              "/api/v1/projects" no_options true
              (Api.FetchRejects
                 {| Api.name := "TypeError"; Api.message := "Failed to fetch";
                    Api.statusCode := None; Api.detail := None |})
              _ eq_refl) as [H | [[_ H] | (r & H & _)]].
  - discriminate H.
  - exact H.
  - discriminate H.
Defined.

(** X12. [apiRequest] resolves with data exactly for a response in
    200..299 whose content type contains ["application/json"] and whose body
    parses, and with the empty object exactly for a response in 200..299
    whose content type is missing or does not contain it. *)
Theorem apiRequest_resolves_iff :
  forall (T : Type) base_url window endpoint options requireAuth
         (o : Api.FetchOutcome T),
    let result :=
      (Api.apiRequest base_url window endpoint options requireAuth o).2 in
    let is_json (r : Api.HttpResponse T) :=
      exists ct a b, Api.content_type r = Some ct
                     /\ ct = a +:+ "application/json" +:+ b in
    (forall v, result = Api.Resolved v
               <-> exists r d, o = Api.Responds r
                               /\ 200 <= Api.status r <= 299
                               /\ is_json r
                               /\ Api.json r = Api.Parsed v d)
    /\ (result = Api.ResolvedEmpty
        <-> exists r, o = Api.Responds r /\ 200 <= Api.status r <= 299
                      /\ ~ is_json r).
Proof.
  intros T base_url window endpoint options requireAuth o result is_json.
  assert (Hrej1 : forall err x, Api.on_error (T := T) err <> Api.Resolved x).
  { intros err x. unfold Api.on_error.
    by destruct (String.eqb _ _ || JsString.includes _ _). }
  assert (Hrej2 : forall err, Api.on_error (T := T) err <> Api.ResolvedEmpty).
  { intros err. unfold Api.on_error.
    by destruct (String.eqb _ _ || JsString.includes _ _). }
  assert (Hok : forall r : Api.HttpResponse T,
            Api.ok r = true <-> 200 <= Api.status r <= 299).
  { intros r. unfold Api.ok. rewrite andb_true_iff, !Z.leb_le. tauto. }
  assert (Hct : forall r : Api.HttpResponse T,
            JsString.truthy_string (Api.content_type r)
            && JsString.includes (default EmptyString (Api.content_type r))
                 "application/json" = true
            <-> is_json r).
  { intros r. subst is_json. cbn beta.
    destruct (Api.content_type r) as [ct|]; cbn.
    - rewrite andb_true_iff, includes_spec. split.
      + intros [_ (a & b & ->)]. eauto.
      + intros (ct' & a & b & [= <-] & ->). split; [|eauto].
        by destruct a.
    - split; [discriminate|]. by intros (? & ? & ? & [=] & _). }
  subst result. cbn. destruct o as [r|err].
  - specialize (Hok r). specialize (Hct r).
    destruct (Api.ok r); cbn.
    + assert (Hst : 200 <= Api.status r <= 299) by by apply Hok.
      destruct (JsString.truthy_string _ && _) eqn:Hc.
      * assert (Hj : is_json r) by by apply Hct.
        split.
        -- intros v. destruct (Api.json r) as [v' d|e'] eqn:Ej; split.
           ++ intros [= ->]. by exists r, d.
           ++ intros (r' & d' & [= <-] & _ & _ & Ej').
              rewrite Ej in Ej'. by injection Ej' as ->.
           ++ discriminate.
           ++ intros (r' & d' & [= <-] & _ & _ & Ej').
              rewrite Ej in Ej'. discriminate.
        -- split; [by destruct (Api.json r)|].
           intros (r' & [= <-] & _ & Hn). contradiction.
      * assert (Hj : ~ is_json r).
        { intros Hj. apply Hct in Hj. discriminate. }
        split.
        -- intros v. split; [discriminate|].
           intros (r' & d' & [= <-] & _ & Hj' & _). contradiction.
        -- split; [|done]. intros _. by exists r.
    + assert (Hn : ~ 200 <= Api.status r <= 299).
      { intros H. apply Hok in H. discriminate. }
      split.
      * intros v. split; [by intros ?%Hrej1|].
        intros (r' & d' & [= <-] & H & _). contradiction.
      * split; [by intros ?%Hrej2|].
        intros (r' & [= <-] & H & _). contradiction.
  - split.
    + intros v. split; [by intros ?%Hrej1|]. by intros (r & d & [=] & _).
    + split; [by intros ?%Hrej2|]. by intros (r & [=] & _).
Qed.

Lemma syncUser_run :
  forall base_url (ls : Frontend.Storage) body (o : Api.FetchOutcome Api.User),
    let '(call, window', r) := Api.syncUser base_url (Some ls) body o in
    Api.url call = base_url +:+ "/api/v1/auth/sync-user"
    /\ Api.sent_method call = Some "POST"
    /\ Api.sent_headers call !! "Authorization" = None
    /\ match r with
       | Api.Resolved user =>
           Frontend.getApiToken window' = Some (Api.api_token user)
       | Api.ResolvedEmpty => Frontend.getApiToken window' = Some "undefined"
       | Api.Rejected _ => window' = Some ls
       end.
Proof.
  intros base_url ls body o. unfold Api.syncUser.
  destruct (Api.apiRequest base_url (Some ls) "/api/v1/auth/sync-user" _ false o)
    as [call r] eqn:E.
  unfold Api.apiRequest in E. injection E as <- _.
  cbn [Api.url Api.sent_method Api.sent_headers Api.method Api.body].
  assert (Hh : Api.request_headers (Some ls)
                 {| Api.method := Some "POST"; Api.body := Some body;
                    Api.headers := ∅ |} false !! "Authorization" = None).
  { rewrite request_headers_lookup. cbn. apply lookup_empty. }
  assert (Hset : forall t,
            Frontend.getApiToken (Frontend.setApiToken t (Some ls)) = Some t).
  { intros t. cbn. unfold Frontend.getItem, Frontend.setItem.
    apply lookup_insert_eq. }
  destruct r as [user| |e]; repeat split; try done; apply Hset.
Qed.

(** X13. [api.syncUser] on the client: the request goes to
    [/api/v1/auth/sync-user] without an [Authorization] header, even when a
    token is stored; if it is rejected the storage is as it was; if it
    resolves with a user, that user's [api_token] is the stored token
    afterwards; and if the backend answers ok without a JSON content type,
    the stored token is the string ["undefined"]. *)
Theorem syncUser_stores_the_token :
  forall base_url (ls : Frontend.Storage) body (o : Api.FetchOutcome Api.User),
    let '(call, window', r) := Api.syncUser base_url (Some ls) body o in
    Api.url call = base_url +:+ "/api/v1/auth/sync-user"
    /\ Api.sent_method call = Some "POST"
    /\ Api.sent_headers call !! "Authorization" = None
    /\ match r with
       | Api.Resolved user =>
           Frontend.getApiToken window' = Some (Api.api_token user)
       | Api.ResolvedEmpty => Frontend.getApiToken window' = Some "undefined"
       | Api.Rejected _ => window' = Some ls
       end.
Proof. exact syncUser_run. Qed.

(** ** The error-detail page *)

Section DetailPageFacts.
Import DetailPage.
Context {D : Type}.

Lemma effect_after_fetch (i : option Z) (st : PageState D) :
  hasFetchedRef st = true ->
  (effect i st).2 = false /\ hasFetchedRef (effect i st).1 = true.
Proof. intros H. unfold effect. destruct i; [rewrite H|]; by cbn. Qed.

Lemma run_effects_after_fetch ids (st : PageState D) :
  hasFetchedRef st = true -> (run_effects ids st).2 = 0%nat.
Proof.
  revert st. induction ids as [|i ids IH]; intros st H; [reflexivity|].
  cbn. destruct (effect_after_fetch i st H) as [H1 H2].
  destruct (effect i st) as [st1 started]. cbn in *. subst started.
  specialize (IH st1 H2). by destruct (run_effects ids st1).
Qed.

Lemma run_effects_count ids (st : PageState D) :
  (run_effects ids st).2
  = if negb (hasFetchedRef st) && existsb is_number ids
    then 1%nat else 0%nat.
Proof.
  destruct (hasFetchedRef st) eqn:Href; cbn [negb andb].
  { by apply run_effects_after_fetch. }
  revert st Href. induction ids as [|i ids IH]; intros st Href; [reflexivity|].
  cbn [run_effects existsb]. destruct i as [i|].
  - unfold effect. rewrite Href. cbn [is_number orb].
    pose proof (run_effects_after_fetch ids
      {| errorData := errorData st; error := error st;
         loading := loading st; hasFetchedRef := true |} eq_refl) as H0.
    destruct (run_effects ids _). cbn in *. by rewrite H0.
  - cbn [effect]. specialize (IH
      {| errorData := errorData st; error := Some "Invalid error ID";
         loading := false; hasFetchedRef := hasFetchedRef st |} Href).
    destruct (run_effects ids _). cbn in *. rewrite IH.
    by destruct (existsb _ ids).
Qed.
End DetailPageFacts.

(** X14. However often the effect of the error-detail page runs, and with
    whatever ids, [fetchData()] is started at most once in the life of the
    component: once if some run had a valid id, never otherwise; after the
    first start no change of the id starts another. *)
Theorem detail_page_fetches_at_most_once :
  forall (D : Type) (ids : list (option Z)) (st : DetailPage.PageState D),
    ((DetailPage.run_effects ids st).2 <= 1)%nat
    /\ (DetailPage.run_effects ids (DetailPage.initial_state (D := D))).2
       = (if existsb DetailPage.is_number ids then 1%nat else 0%nat)
    /\ (DetailPage.hasFetchedRef st = true ->
        (DetailPage.run_effects ids st).2 = 0%nat).
Proof.
  intros D ids st. split; [|split].
  - rewrite run_effects_count. destruct (_ && _); lia.
  - by rewrite run_effects_count.
  - apply run_effects_after_fetch.
Qed.

(** X15. Once [fetchData] has settled the page never shows the skeleton
    again.  From the initial state it shows the details exactly for an
    answer with data, and the error box with the error's message for a
    rejection, or with "Error not found" if that message is empty; an answer
    that is the empty object makes rendering throw.  An error message once
    set is never cleared: after an invalid id, a later successful fetch still
    renders "Invalid error ID". *)
Theorem detail_page_view_after_fetch :
  forall (D : Type) (r : Api.ApiResult D) (st : DetailPage.PageState D)
         (i : Z) (d : D),
    DetailPage.render (DetailPage.fetchData_settled r st) <> DetailPage.Skeleton
    /\ DetailPage.render
         (DetailPage.fetchData_settled r
            (DetailPage.effect (Some i) DetailPage.initial_state).1)
       = match r with
         | Api.Resolved data => DetailPage.Details data
         | Api.ResolvedEmpty => DetailPage.RenderThrows
         | Api.Rejected e =>
             DetailPage.ErrorBox
               (if String.eqb (Api.message e) "" then "Error not found"
                else Api.message e)
         end
    /\ DetailPage.render
         (DetailPage.fetchData_settled (Api.Resolved d)
            (DetailPage.effect (Some i)
               (DetailPage.effect None DetailPage.initial_state).1).1)
       = DetailPage.ErrorBox "Invalid error ID".
Proof.
  intros D r st i d. split; [|split].
  - unfold DetailPage.render.
    destruct r; cbn; by repeat case_match.
  - destruct r as [data| |e]; cbn; try reflexivity.
    unfold DetailPage.render. cbn.
    by destruct (String.eqb (Api.message e) "").
  - reflexivity.
Qed.

(** ** Route protection *)

Section MatcherFacts.
Import JsString AuthMiddleware.
#[local] Arguments String.append !s1 s2 : simpl nomatch.

Lemma single_line_append (a b : string) :
  single_line (a +:+ b) = single_line a && single_line b.
Proof.
  induction a as [|c a IH]; cbn; [reflexivity|].
  rewrite IH. by rewrite andb_assoc.
Qed.

Lemma dot_star_then_spec p (s : string) :
  dot_star_then p s = true
  <-> exists a b, s = a +:+ b /\ single_line a = true /\ p b = true.
Proof.
  induction s as [|c s IH]; cbn [dot_star_then].
  - rewrite orb_false_r. split.
    + intros H. by exists EmptyString, EmptyString.
    + intros (a & b & E & _ & H). destruct a; [|discriminate].
      cbn in E. by subst b.
  - rewrite orb_true_iff, andb_true_iff, IH. split.
    + intros [H | [Hc (a & b & -> & Ha & Hb)]].
      * by exists EmptyString, (String c s).
      * exists (String c a), b. cbn. rewrite Hc, Ha. done.
    + intros (a & b & E & Ha & Hb). destruct a as [|c' a]; cbn in E.
      * subst b. by left.
      * injection E as -> ->. cbn in Ha. apply andb_prop in Ha as [? ?].
        right. split; [done|]. by exists a, b.
Qed.

Lemma dot_star_to_end (s : string) :
  dot_star_then (String.eqb "") s = single_line s.
Proof.
  induction s as [|c s IH]; [reflexivity|].
  cbn [dot_star_then single_line]. by rewrite IH.
Qed.

Lemma favicon_ico_spec (s : string) :
  favicon_ico s = true
  <-> exists c t, s = "favicon" +:+ String c ("ico" +:+ t)
                  /\ line_terminator c = false.
Proof.
  unfold favicon_ico. rewrite andb_true_iff, startsWith_spec. split.
  - intros [[u ->] H]. cbn in H. destruct u as [|c t]; [discriminate|].
    apply andb_prop in H as [Hc [v ->]%startsWith_spec].
    exists c, v. split; [reflexivity|]. by destruct (line_terminator c).
  - intros (c & t & -> & Hc). split; [eauto|]. cbn. rewrite Hc. cbn.
    apply startsWith_spec. eauto.
Qed.

Lemma matcher_spec (pathname : string) :
  matcher pathname = true
  <-> exists rest,
        pathname = String "/" rest
        /\ single_line rest = true
        /\ ~ (exists t, rest = "_next/static" +:+ t)
        /\ ~ (exists t, rest = "_next/image" +:+ t)
        /\ ~ (exists c t, rest = "favicon" +:+ String c ("ico" +:+ t))
        /\ ~ (exists a, rest = a +:+ ".svg").
Proof.
  unfold matcher. destruct pathname as [|c rest].
  { split; [discriminate|]. by intros (? & [=] & _). }
  destruct (base.decide (c = "/"%char)) as [->|Hc].
  2: { assert (match c with
               | "/"%char => negb (lookahead rest)
                             && dot_star_then (String.eqb "") rest
               | _ => false end = false) as ->.
       { destruct c as [[] [] [] [] [] [] [] []]; try reflexivity. done. }
       split; [discriminate|]. intros (? & [= ? ?] & _). done. }
  rewrite andb_true_iff, negb_true_iff, dot_star_to_end. unfold lookahead.
  rewrite !orb_false_iff. split.
  - intros [[[[H1 H2] H3] H4] Hl]. exists rest. split; [reflexivity|].
    split; [exact Hl|]. repeat split.
    + intros H%startsWith_spec. congruence.
    + intros H%startsWith_spec. congruence.
    + intros (x & t & E).
      assert (favicon_ico rest = true); [|congruence].
      apply favicon_ico_spec. exists x, t. split; [exact E|].
      subst rest. rewrite single_line_append in Hl.
      apply andb_prop in Hl as [_ Hl]. cbn [single_line] in Hl.
      by apply andb_prop in Hl as [?%negb_true_iff _].
    + intros (a & E).
      assert (dot_star_then (String.eqb ".svg") rest = true); [|congruence].
      apply dot_star_then_spec. exists a, ".svg". split; [exact E|].
      split; [|reflexivity]. subst rest. rewrite single_line_append in Hl.
      by apply andb_prop in Hl as [? _].
  - intros (rest' & [= <-] & Hl & H1 & H2 & H3 & H4). split; [|exact Hl].
    repeat split; apply not_true_is_false.
    + intros H%startsWith_spec. by apply H1.
    + intros H%startsWith_spec. by apply H2.
    + intros (x & t & E & _)%favicon_ico_spec. apply H3. eauto.
    + intros (a & b & E & _ & Hb%String.eqb_eq)%dot_star_then_spec.
      subst b. apply H4. eauto.
Qed.
End MatcherFacts.

(** X16. Route protection, with the matcher of the module taken into
    account.  The handler is run exactly on the paths that consist of a
    slash and a rest that does not start with [_next/static], [_next/image]
    or [favicon], any one character, [ico], and does not end in [.svg]; on
    every other path it is not run and the request goes on as it is.  So a
    visitor who is not logged in gets through exactly on the paths the
    matcher leaves out, on [/login] and on paths that start with [/api/auth]
    (so also on, say, [/api/authors]); on every other path the answer is a
    redirect to [/login] that carries the path as [callbackUrl].  A logged-in
    visitor is never sent to [/login]: where the handler runs, [/login]
    redirects to [/projects] and every other path gets through. *)
Theorem route_protection :
  forall pathname : string,
    let anonymous := AuthMiddleware.route pathname false in
    let member := AuthMiddleware.route pathname true in
    (AuthMiddleware.matcher pathname = true
     <-> exists rest,
           pathname = String "/" rest
           /\ JsString.single_line rest = true
           /\ ~ (exists t, rest = "_next/static" +:+ t)
           /\ ~ (exists t, rest = "_next/image" +:+ t)
           /\ ~ (exists c t, rest = "favicon" +:+ String c ("ico" +:+ t))
           /\ ~ (exists a, rest = a +:+ ".svg"))
    /\ (AuthMiddleware.gets_through anonymous = true
        <-> AuthMiddleware.matcher pathname = false
            \/ pathname = "/login"
            \/ exists t, pathname = "/api/auth" +:+ t)
    /\ (AuthMiddleware.gets_through anonymous = false ->
        anonymous
        = AuthMiddleware.Ran
            (AuthMiddleware.RedirectTo "/login" (Some pathname)))
    /\ member
       = (if AuthMiddleware.matcher pathname
          then AuthMiddleware.Ran
                 (if String.eqb pathname "/login"
                  then AuthMiddleware.RedirectTo "/projects" None
                  else AuthMiddleware.PassThrough)
          else AuthMiddleware.NotRun)
    /\ AuthMiddleware.route "/api/authors" false
       = AuthMiddleware.Ran AuthMiddleware.PassThrough
    /\ AuthMiddleware.route "/logo.svg" false = AuthMiddleware.NotRun
    /\ AuthMiddleware.route "/_next/static/chunks/main.js" false
       = AuthMiddleware.NotRun
    /\ AuthMiddleware.route "/projects/1" false
       = AuthMiddleware.Ran
           (AuthMiddleware.RedirectTo "/login" (Some "/projects/1")).
Proof.
  intros pathname anonymous member.
  split; [apply matcher_spec|].
  subst anonymous member. unfold AuthMiddleware.route.
  pose proof (startsWith_spec pathname "/api/auth") as Hsw.
  destruct (AuthMiddleware.matcher pathname) eqn:Hm.
  2: { cbn. repeat split; try done. intros _. by left. }
  unfold AuthMiddleware.middleware.
  destruct (String.eqb_spec pathname "/login") as [->|Hne]; cbn.
  - repeat split; try done. intros _. right. by left.
  - destruct (JsString.startsWith pathname "/api/auth") eqn:Hs; cbn.
    + repeat split; try done. intros _. right. right. by apply Hsw.
    + repeat split; try done. intros [?|[?|H]]; [done|done|].
      apply Hsw in H. discriminate.
Qed.

(** ** [UserSync] *)

(** Closes the cases in which the effect only asked for the session. *)
Ltac only_session_fetched Hnone :=
  let Hd := fresh "Hd" in
  let Hc := fresh "Hc" in
  let H := fresh "H" in
  destruct (Hnone _ eq_refl) as [Hd Hc]; cbn;
  (split; [intros H; by apply Hd in H|]);
  (split; [done|]);
  (split; [intros ? ? H; by apply Hc in H | discriminate]).

(** X17. One run of the [UserSync] effect in the browser.  With a non-empty
    token stored it does nothing.  Otherwise: the ['user-synced'] event is
    dispatched only after a token has been stored; without that event the
    storage is as it was; the backend is asked to sync only for a session
    user with a non-empty [id] and a user name other than ['unknown'], and
    that request carries no [Authorization] header; and [synced] ends
    [false], so that the effect runs again, only when such a request was made
    and rejected. *)
Theorem user_sync_effect :
  forall base_url trim stringify (ls : Frontend.Storage) (synced0 : bool)
         (session : UserSync.SessionOutcome) (sync : Api.FetchOutcome Api.User),
    let run := UserSync.effect base_url trim stringify (Some ls) synced0
                 session sync in
    (JsString.truthy_string (Frontend.getApiToken (Some ls)) = true ->
     run = {| UserSync.sync_effects := []; UserSync.sync_window := Some ls;
              UserSync.synced := true |})
    /\ (UserSync.DispatchEvent "user-synced" ∈ UserSync.sync_effects run ->
        exists t, Frontend.getApiToken (UserSync.sync_window run) = Some t)
    /\ (UserSync.DispatchEvent "user-synced" ∉ UserSync.sync_effects run ->
        UserSync.sync_window run = Some ls)
    /\ (forall userData call,
          UserSync.CallSyncUser userData call ∈ UserSync.sync_effects run ->
          exists user,
            session = UserSync.SessionIs (Some user)
            /\ JsString.truthy_string (UserSync.su_id user) = true
            /\ UserSync.username_of user <> "unknown"
            /\ UserSync.r_username userData = trim (UserSync.username_of user)
            /\ Api.sent_headers call !! "Authorization" = None)
    /\ (UserSync.synced run = false ->
        synced0 = false
        /\ exists userData call,
             UserSync.sync_effects run
             = [UserSync.FetchSession; UserSync.CallSyncUser userData call]).
Proof.
  intros base_url trim stringify ls synced0 session sync run.
  subst run. unfold UserSync.effect.
  destruct (JsString.truthy_string (Frontend.getApiToken (Some ls))) eqn:Htok.
  { cbn. repeat split; try done.
    - by intros ?%elem_of_nil.
    - by intros ? ? ?%elem_of_nil. }
  split; [discriminate|].
  destruct synced0.
  { cbn. repeat split; try done.
    - by intros ?%elem_of_nil.
    - by intros ? ? ?%elem_of_nil. }
  assert (Hnone : forall l : list UserSync.SyncEffect,
            l = [UserSync.FetchSession] ->
            (UserSync.DispatchEvent "user-synced" ∈ l -> False)
            /\ (forall userData call,
                  UserSync.CallSyncUser userData call ∈ l -> False)).
  { intros l ->. split.
    - intros H%list_elem_of_singleton. discriminate.
    - intros ? ? H%list_elem_of_singleton. discriminate. }
  destruct session as [|[user|]].
  1,3: only_session_fetched Hnone.
  destruct (JsString.truthy_string (UserSync.su_id user)) eqn:Hid; cbn [negb].
  2: only_session_fetched Hnone.
  destruct (String.eqb (UserSync.username_of user) ""
            || String.eqb (UserSync.username_of user) "unknown") eqn:Hname.
  { only_session_fetched Hnone. }
  apply orb_false_elim in Hname as [_ Hunk%String.eqb_neq].
  pose proof (syncUser_run base_url ls
    (stringify
       {| UserSync.r_github_id := trim (default EmptyString (UserSync.su_id user));
          UserSync.r_username := trim (UserSync.username_of user);
          UserSync.r_email := UserSync.trimmed_or_null trim (UserSync.su_email user);
          UserSync.r_name := UserSync.trimmed_or_null trim (UserSync.su_name user);
          UserSync.r_avatar_url :=
            UserSync.trimmed_or_null trim (UserSync.su_image user) |})
    sync) as Hrun.
  destruct (Api.syncUser _ _ _ _) as [[call window'] r].
  destruct Hrun as (_ & _ & Hauth & Hr).
  assert (Hcall : forall userData call0 (l : list UserSync.SyncEffect),
            UserSync.CallSyncUser userData call0
              ∈ UserSync.FetchSession
                  :: UserSync.CallSyncUser
                       {| UserSync.r_github_id :=
                            trim (default EmptyString (UserSync.su_id user));
                          UserSync.r_username := trim (UserSync.username_of user);
                          UserSync.r_email :=
                            UserSync.trimmed_or_null trim (UserSync.su_email user);
                          UserSync.r_name :=
                            UserSync.trimmed_or_null trim (UserSync.su_name user);
                          UserSync.r_avatar_url :=
                            UserSync.trimmed_or_null trim (UserSync.su_image user) |}
                       call
                  :: l ->
            (forall x y, UserSync.CallSyncUser x y ∉ l) ->
            exists user0,
              UserSync.SessionIs (Some user) = UserSync.SessionIs (Some user0)
              /\ JsString.truthy_string (UserSync.su_id user0) = true
              /\ UserSync.username_of user0 <> "unknown"
              /\ UserSync.r_username userData
                 = trim (UserSync.username_of user0)
              /\ Api.sent_headers call0 !! "Authorization" = None).
  { intros userData call0 l Hin Hl.
    apply elem_of_cons in Hin as [Hin | Hin]; [discriminate|].
    apply elem_of_cons in Hin as [Hin | Hin]; [|by apply Hl in Hin].
    injection Hin as -> ->. by exists user. }
  destruct r as [u| |e]; cbn.
  - split; [intros _; eauto|]. split.
    { intros H. exfalso. apply H. do 2 apply list_elem_of_further.
      apply list_elem_of_here. }
    split; [|discriminate].
    intros userData call0 Hin. apply (Hcall _ _ _ Hin).
    intros x y H%list_elem_of_singleton. discriminate.
  - split; [intros _; eauto|]. split.
    { intros H. exfalso. apply H. do 2 apply list_elem_of_further.
      apply list_elem_of_here. }
    split; [|discriminate].
    intros userData call0 Hin. apply (Hcall _ _ _ Hin).
    intros x y H%list_elem_of_singleton. discriminate.
  - split.
    { intros H. apply elem_of_cons in H as [H|H]; [discriminate|].
      apply list_elem_of_singleton in H. discriminate. }
    split; [intros _; exact Hr|].
    split; [|intros _; split; eauto].
    intros userData call0 Hin. apply (Hcall _ _ _ Hin).
    intros x y H%elem_of_nil. done.
Qed.

(** ** The token wait of the pages under [frontend/app] *)

(** X18. The error page and the project page under [frontend/app] read the
    key of the API client: their wait resolves at once exactly when
    [getApiToken] has a non-empty token, so right after [setApiToken] of a
    non-empty token it does, and after [clearApiToken] the timer of 2000 ms
    and the ['user-synced'] listener are armed. *)
Theorem app_page_wait_follows_api_token :
  forall (ls : Frontend.Storage) (token : string),
    (Frontend.ErrorDetailPage_app_wait ls = Frontend.ResolvedAtOnce
     <-> exists t, Frontend.getApiToken (Some ls) = Some t /\ t <> EmptyString)
    /\ (forall ls', Frontend.setApiToken token (Some ls) = Some ls' ->
          Frontend.ErrorDetailPage_app_wait ls'
          = if String.eqb token "" then Frontend.WaitsFor "user-synced" 2000
            else Frontend.ResolvedAtOnce)
    /\ (forall ls', Frontend.clearApiToken (Some ls) = Some ls' ->
          Frontend.ErrorDetailPage_app_wait ls'
          = Frontend.WaitsFor "user-synced" 2000).
Proof.
  intros ls token.
  unfold Frontend.ErrorDetailPage_app_wait, Frontend.wait_for_token,
    Frontend.getApiToken, Frontend.setApiToken, Frontend.clearApiToken,
    Frontend.getItem, Frontend.setItem, Frontend.removeItem,
    Frontend.API_TOKEN_KEY.
  split; [|split].
  - destruct (ls !! "debug_ai_api_token") as [t|].
    + destruct (String.eqb_spec t "") as [->|Hne]; cbn.
      * split; [discriminate|]. by intros (t & [= <-] & ?).
      * split; [eauto|done].
    + split; [discriminate|]. by intros (t & [=] & _).
  - intros ls' [= <-]. rewrite lookup_insert_eq.
    by destruct (String.eqb token "").
  - intros ls' [= <-]. by rewrite lookup_delete_eq.
Qed.
